(** * Room relay: connection registry, broadcast fan-out and session loops

    A shallow embedding of [main.py]: the [ConnectionManager] class, the two
    WebSocket handlers [websocket_endpoint] and [voice_endpoint], and the
    [join_room] handler that injects a broadcast.

    Python objects are modelled as follows.
    - A [WebSocket] object is known by its identity only, a natural number.
    - [Dict[str, Set[WebSocket]]] is a [gmap string (gset nat)].
    - A coroutine is a function from the server state to an outcome and the
      state it leaves behind: a raised exception keeps every mutation made
      before it, as in-place updates do in Python.
    - The network is a log of the calls made on the sockets, with a table
      telling which sockets currently fail on a send. *)

From stdpp Require Import gmap strings list fin_maps fin_sets.

#[local] Set Warnings "-register-all,-clear-no-such-hyp".

Abbreviation rooms := (gmap string (gset nat)).

(** ** Python values and exceptions *)

Inductive value :=
  | VNone
  | VBool (b : bool)
  | VInt (z : Z)
  | VStr (s : string)
  | VBytes (b : list Byte.byte)
  | VList (l : list value)
  | VDict (d : list (string * value)).

(** Every exception below is a subclass of [Exception]. *)
Inductive exn :=
  | KeyError
  | WebSocketDisconnect
  | RuntimeError
  | JSONDecodeError.

#[global] Instance exn_eq_dec : EqDecision exn.
Proof. solve_decision. Defined.

Inductive result (A : Type) :=
  | Ok (a : A)
  | Raise (e : exn).
Arguments Ok {A} a.
Arguments Raise {A} e.

(** ** Coroutines: state passing with exceptions *)

Definition py (S A : Type) : Type := S → result A * S.

#[global] Instance py_ret {S} : MRet (py S) := λ A a s, (Ok a, s).
#[global] Instance py_bind {S} : MBind (py S) := λ A B f m s,
  match m s with
  | (Ok a, s') => f a s'
  | (Raise e, s') => (Raise e, s')
  end.

Definition raise {S A} (e : exn) : py S A := λ s, (Raise e, s).
Definition get_state {S} : py S S := λ s, (Ok s, s).

(** [try: body except exc: handler] *)
Definition try_except {S A} (body : py S A) (exc : exn) (handler : py S A) : py S A :=
  λ s, match body s with
       | (Raise e, s') => if decide (e = exc) then handler s' else (Raise e, s')
       | r => r
       end.

(** [try: body except Exception: pass] *)
Definition try_pass {S} (body : py S ()) : py S () :=
  λ s, match body s with
       | (Raise _, s') => (Ok (), s')
       | r => r
       end.

(** A value or a raise that does not touch the state. *)
Definition lift {S A} (r : result A) : py S A := λ s, (r, s).

(** ** Built-in dict and set operations *)

(** [k in d] *)
Definition dict_contains (d : rooms) (k : string) : bool :=
  bool_decide (is_Some (d !! k)).

(** [d[k]] *)
Definition dict_getitem (d : rooms) (k : string) : result (gset nat) :=
  match d !! k with
  | Some s => Ok s
  | None => Raise KeyError
  end.

(** [d.get(k, set())] *)
Definition dict_get (d : rooms) (k : string) : gset nat :=
  default ∅ (d !! k).

(** [s.remove(x)] *)
Definition set_remove (s : gset nat) (x : nat) : result (gset nat) :=
  if decide (x ∈ s) then Ok (s ∖ {[x]}) else Raise KeyError.

(** [d.setdefault(k, set()).add(x)]: the set stored under [k] is created
    when missing and updated in place. *)
Definition setdefault_add (d : rooms) (k : string) (x : nat) : rooms :=
  match d !! k with
  | Some s => <[k := s ∪ {[x]}]> d
  | None => <[k := ∅ ∪ {[x]}]> d
  end.

(** [if k in d and x in d[k]: d[k].remove(x)] *)
Definition discard_member (d : rooms) (k : string) (x : nat) : result rooms :=
  if dict_contains d k then
    match dict_getitem d k with
    | Raise e => Raise e
    | Ok s =>
        if decide (x ∈ s) then
          match dict_getitem d k with
          | Raise e => Raise e
          | Ok s0 =>
              match set_remove s0 x with
              | Raise e => Raise e
              | Ok s1 => Ok (<[k := s1]> d)
              end
          end
        else Ok d
    end
  else Ok d.

(** ** Server state *)

Record ConnectionManager := {
  active_connections : rooms;
  voice_connections : rooms
}.

(** [ConnectionManager.__init__] *)
Definition ConnectionManager_init : ConnectionManager :=
  {| active_connections := ∅; voice_connections := ∅ |}.

(** One call made on a socket. *)
Inductive io :=
  | IoAccept (ws : nat)
  | IoSendJson (ws : nat) (message : value) (ok : bool)
  | IoSendBytes (ws : nat) (data : value) (ok : bool).

Record Server := {
  manager : ConnectionManager;
  faults : gmap nat exn;   (* sockets on which a send raises, and what *)
  wire : list io           (* calls made so far, oldest first *)
}.

Definition Server_init : Server :=
  {| manager := ConnectionManager_init; faults := ∅; wire := [] |}.

Definition set_manager (m : ConnectionManager) (s : Server) : Server :=
  {| manager := m; faults := faults s; wire := wire s |}.

Definition emit (a : io) : py Server () := λ s,
  (Ok (), {| manager := manager s; faults := faults s; wire := wire s ++ [a] |}).

(** ** Socket calls *)

(** The handshake of [ws] has been accepted: the log holds its [accept]. *)
Definition was_accepted (ws : nat) (log : list io) : bool :=
  existsb (λ a, match a with
                | IoAccept ws' => bool_decide (ws' = ws)
                | _ => false
                end) log.

(** [await websocket.accept()]: a socket is accepted once; on a socket that
    is no longer waiting for its handshake the call raises [RuntimeError]
    and nothing is sent. *)
Definition accept (ws : nat) : py Server () := λ s,
  if was_accepted ws (wire s) then raise RuntimeError s
  else emit (IoAccept ws) s.

(** [await connection.send_json(message)] *)
Definition send_json (ws : nat) (message : value) : py Server () := λ s,
  match faults s !! ws with
  | Some e => (emit (IoSendJson ws message false) ;; raise e) s
  | None => emit (IoSendJson ws message true) s
  end.

(** [await connection.send_bytes(data)] *)
Definition send_bytes (ws : nat) (data : value) : py Server () := λ s,
  match faults s !! ws with
  | Some e => (emit (IoSendBytes ws data false) ;; raise e) s
  | None => emit (IoSendBytes ws data true) s
  end.

(** ** ConnectionManager *)

Definition update_active (f : rooms → result rooms) : py Server () := λ s,
  match f (active_connections (manager s)) with
  | Ok d => (Ok (), set_manager {| active_connections := d;
                                   voice_connections := voice_connections (manager s) |} s)
  | Raise e => (Raise e, s)
  end.

Definition update_voice (f : rooms → result rooms) : py Server () := λ s,
  match f (voice_connections (manager s)) with
  | Ok d => (Ok (), set_manager {| active_connections := active_connections (manager s);
                                   voice_connections := d |} s)
  | Raise e => (Raise e, s)
  end.

(** [ConnectionManager.connect] *)
Definition connect (room : string) (websocket : nat) : py Server () :=
  accept websocket ;;
  update_active (λ d, Ok (setdefault_add d room websocket)).

(** [ConnectionManager.disconnect] *)
Definition disconnect (room : string) (websocket : nat) : py Server () :=
  update_active (λ d, discard_member d room websocket) ;;
  update_voice (λ d, discard_member d room websocket).

(** [for x in l: body(x)] *)
Fixpoint for_each {S} (l : list nat) (body : nat → py S ()) : py S () :=
  match l with
  | [] => mret ()
  | x :: l' => body x ;; for_each l' body
  end.

(** [list(d.get(room, set()))]: the snapshot a broadcast iterates over.
    Python leaves the order of a set unspecified; [elements] fixes one. *)
Definition snapshot (d : rooms) (room : string) : list nat :=
  elements (dict_get d room).

(** [ConnectionManager.broadcast] *)
Definition broadcast (room : string) (message : value) : py Server () :=
  s ← get_state;
  for_each (snapshot (active_connections (manager s)) room)
    (λ connection, try_pass (send_json connection message)).

(** [ConnectionManager.broadcast_voice] *)
Definition broadcast_voice (room : string) (data : value) : py Server () :=
  s ← get_state;
  for_each (snapshot (voice_connections (manager s)) room)
    (λ connection, try_pass (send_bytes connection data)).

(** ** HTTP handler *)

(** [join_room] *)
Definition join_room (player_id room_code : string) : py Server value :=
  broadcast room_code
    (VDict [("type", VStr "player_joined"); ("player_id", VStr player_id)]) ;;
  mret (VDict [("ok", VBool true)]).

(** ** WebSocket handlers *)

(** Where a handler stands once the frames that have arrived are used up:
    suspended in its read, or returned. *)
Inductive progress :=
  | Blocked
  | Finished.

(** [await websocket.receive_json()] and [await websocket.receive()]: what
    the read gives is decided by the peer and the transport.  When the
    peer has closed, [receive_json] raises [WebSocketDisconnect];
    [receive] returns the close as a message and raises [RuntimeError]
    when it is called again. *)
Definition receive_json (r : result value) : py Server value := lift r.
Definition receive (r : result (gmap string value)) : py Server (gmap string value) :=
  lift r.

(** [msg[k]] *)
Definition msg_getitem (msg : gmap string value) (k : string) : result value :=
  match msg !! k with
  | Some v => Ok v
  | None => Raise KeyError
  end.

(** [v is not None] *)
Definition is_not_None (v : value) : bool :=
  match v with
  | VNone => false
  | _ => true
  end.

(** One pass through the body of [while True] in [websocket_endpoint]. *)
Definition game_turn (room_code : string) (r : result value) : py Server () :=
  data ← receive_json r;
  broadcast room_code data.

(** One pass through the body of [while True] in [voice_endpoint]. *)
Definition voice_turn (room_code : string) (r : result (gmap string value))
  : py Server () :=
  msg ← receive r;
  if bool_decide (is_Some (msg !! "bytes")) then
    v ← lift (msg_getitem msg "bytes");
    if is_not_None v then
      data ← lift (msg_getitem msg "bytes");
      broadcast_voice room_code data
    else mret ()
  else mret ().

(** [while True: turn], run on the reads that complete. *)
Fixpoint while_True {R} (turn : R → py Server ()) (inbox : list R)
  : py Server progress :=
  match inbox with
  | [] => mret Blocked
  | r :: inbox' => turn r ;; while_True turn inbox'
  end.

(** The [try] statement of [websocket_endpoint], entered with the reads
    that complete while the handler runs. *)
Definition game_session (websocket : nat) (room_code : string)
    (inbox : list (result value)) : py Server progress :=
  try_except (while_True (game_turn room_code) inbox)
    WebSocketDisconnect
    (disconnect room_code websocket ;; mret Finished).

(** [websocket_endpoint] *)
Definition websocket_endpoint (websocket : nat) (room_code : string)
    (inbox : list (result value)) : py Server progress :=
  connect room_code websocket ;;
  game_session websocket room_code inbox.

(** The [try] statement of [voice_endpoint]. *)
Definition voice_session (websocket : nat) (room_code : string)
    (inbox : list (result (gmap string value))) : py Server progress :=
  try_except (while_True (voice_turn room_code) inbox)
    WebSocketDisconnect
    (disconnect room_code websocket ;; mret Finished).

(** [voice_endpoint] *)
Definition voice_endpoint (websocket : nat) (room_code : string)
    (inbox : list (result (gmap string value))) : py Server progress :=
  accept websocket ;;
  update_voice (λ d, Ok (setdefault_add d room_code websocket)) ;;
  voice_session websocket room_code inbox.

(** ** Observations used in the statements *)

(** The two channel kinds: [active_connections] holds the STATE members,
    [voice_connections] the VOICE members. *)
Inductive kind :=
  | STATE
  | VOICE.

#[global] Instance kind_eq_dec : EqDecision kind.
Proof. solve_decision. Defined.

Definition table (k : kind) (m : ConnectionManager) : rooms :=
  match k with
  | STATE => active_connections m
  | VOICE => voice_connections m
  end.

(** The membership set of [(room, k)]: what a broadcast reads, the empty
    set when the room has no entry. *)
Definition members (m : ConnectionManager) (room : string) (k : kind) : gset nat :=
  dict_get (table k m) room.

(** Registration under a kind: [ConnectionManager.connect] for STATE, the
    first two statements of [voice_endpoint] for VOICE. *)
Definition register (room : string) (k : kind) (websocket : nat) : py Server () :=
  match k with
  | STATE => connect room websocket
  | VOICE =>
      accept websocket ;;
      update_voice (λ d, Ok (setdefault_add d room websocket))
  end.

(** A registry operation, and a sequence of them run from a given state.
    An operation that raises stops the run. *)
Inductive op :=
  | Connect (room : string) (k : kind) (websocket : nat)
  | Disconnect (room : string) (websocket : nat).

Definition run_op (o : op) : py Server () :=
  match o with
  | Connect room k websocket => register room k websocket
  | Disconnect room websocket => disconnect room websocket
  end.

Fixpoint run_ops (ops : list op) : py Server () :=
  match ops with
  | [] => mret ()
  | o :: ops' => run_op o ;; run_ops ops'
  end.

(** [websocket] was connected under [(room, k)] and no
    [disconnect(room, websocket)] came after its last such connect. *)
Definition connected_not_disconnected (ops : list op) (room : string) (k : kind)
    (websocket : nat) : Prop :=
  ∃ before after,
    ops = before ++ Connect room k websocket :: after ∧
    Disconnect room websocket ∉ after.

(** What the server tried to send to [ws], and what [ws] received, in
    order, according to a log of socket calls. *)
Definition sent_to (ws : nat) (log : list io) : list value :=
  omap (λ a, match a with
             | IoAccept _ => None
             | IoSendJson ws' p _ | IoSendBytes ws' p _ =>
                 if decide (ws' = ws) then Some p else None
             end) log.

Definition received_by (ws : nat) (log : list io) : list value :=
  omap (λ a, match a with
             | IoAccept _ => None
             | IoSendJson ws' p ok | IoSendBytes ws' p ok =>
                 if decide (ws' = ws) then (if ok then Some p else None) else None
             end) log.

(** A send on [ws] goes through in state [s]. *)
Definition healthy (s : Server) (ws : nat) : bool :=
  match faults s !! ws with
  | None => true
  | Some _ => false
  end.

(** The calls a state [s'] has logged beyond those of [s]. *)
Definition new_calls (s s' : Server) : list io :=
  drop (length (wire s)) (wire s').

(** The dict left by [discard_member]: [x] is taken out of the set under
    [k] when it is there, and nothing changes otherwise. *)
Definition discarded (d : rooms) (k : string) (x : nat) : rooms :=
  if decide (x ∈ dict_get d k) then <[k := dict_get d k ∖ {[x]}]> d else d.

(** The registry left by a registration and by [disconnect]. *)
Definition registered (room : string) (k : kind) (ws : nat)
    (m : ConnectionManager) : ConnectionManager :=
  match k with
  | STATE => {| active_connections := setdefault_add (active_connections m) room ws;
                voice_connections := voice_connections m |}
  | VOICE => {| active_connections := active_connections m;
                voice_connections := setdefault_add (voice_connections m) room ws |}
  end.

Definition purged (room : string) (ws : nat) (m : ConnectionManager)
  : ConnectionManager :=
  {| active_connections := discarded (active_connections m) room ws;
     voice_connections := discarded (voice_connections m) room ws |}.

(** A state with further socket calls logged. *)
Definition logged (calls : list io) (s : Server) : Server :=
  {| manager := manager s; faults := faults s; wire := wire s ++ calls |}.

(** The calls of one fan-out over the snapshot [l] in state [s]: one send
    per element, in order, each going through or not as the socket allows.
    [mk] is [IoSendJson] or [IoSendBytes]. *)
Definition fanout (mk : nat → value → bool → io) (s : Server) (p : value)
    (l : list nat) : list io :=
  map (λ ws, mk ws p (healthy s ws)) l.

(** The registry left by one registry operation. *)
Definition apply_op (o : op) (m : ConnectionManager) : ConnectionManager :=
  match o with
  | Connect room k ws => registered room k ws m
  | Disconnect room ws => purged room ws m
  end.

(** The same call made [n] times in a row. *)
Fixpoint repeat_call (n : nat) (call : py Server ()) : py Server () :=
  match n with
  | O => mret ()
  | S n' => call ;; repeat_call n' call
  end.

(** The sends one pass of the loop of [voice_endpoint] makes on a message. *)
Definition voice_calls (room_code : string) (msg : gmap string value)
    (s : Server) : list io :=
  match msg !! "bytes" with
  | Some v =>
      if is_not_None v
      then fanout IoSendBytes s v (snapshot (voice_connections (manager s)) room_code)
      else []
  | None => []
  end.

(** The binary payload of a message returned by [websocket.receive()]:
    the [bytes] entry when it holds a byte string. *)
Definition binary_payload (msg : gmap string value) : option (list Byte.byte) :=
  match msg !! "bytes" with
  | Some (VBytes b) => Some b
  | _ => None
  end.

(** An ASGI receive message holds, under [bytes], a byte string or [None]
    when it holds anything. *)
Definition asgi_typed (msg : gmap string value) : Prop :=
  ∀ v, msg !! "bytes" = Some v → v = VNone ∨ ∃ b, v = VBytes b.

(** ** The server as a whole

    Handlers run one per connection and interleave at their reads.  The
    framework creates a fresh [WebSocket] object for every upgrade request
    and passes it, with the [room_code] of the request path, to the handler
    of the route. *)

Inductive route :=
  | GameRoute     (* /ws/game/{room_code} *)
  | VoiceRoute.   (* /ws/voice/{room_code} *)

#[global] Instance route_eq_dec : EqDecision route.
Proof. solve_decision. Defined.

Definition route_of (k : kind) : route :=
  match k with
  | STATE => GameRoute
  | VOICE => VoiceRoute
  end.

Record System := {
  server : Server;
  requests : gmap nat (route * string);  (* every socket handed to a handler,
                                            with its route and room_code *)
  running : gset nat                     (* handlers suspended in a read *)
}.

Definition System_init : System :=
  {| server := Server_init; requests := ∅; running := ∅ |}.

Inductive event :=
  | Upgrade (ws : nat) (r : route) (room_code : string)
  | FrameJson (ws : nat) (r : result value)
  | FrameAsgi (ws : nat) (r : result (gmap string value))
  | JoinRequest (player_id room_code : string)
  | Transport (ws : nat) (e : option exn).

(** The handler of [ws] has run up to its next read, or has ended. *)
Definition settle (ws : nat) (out : result progress * Server) (sys : System)
  : System :=
  {| server := out.2;
     requests := requests sys;
     running := match out.1 with
                | Ok Blocked => running sys
                | _ => running sys ∖ {[ws]}
                end |}.

Definition set_faults (f : gmap nat exn) (s : Server) : Server :=
  {| manager := manager s; faults := f; wire := wire s |}.

Definition step (sys : System) (ev : event) : option System :=
  match ev with
  | Upgrade ws r room_code =>
      if decide (ws ∈ dom (requests sys)) then None
      else
        let out := match r with
                   | GameRoute => websocket_endpoint ws room_code [] (server sys)
                   | VoiceRoute => voice_endpoint ws room_code [] (server sys)
                   end in
        Some (settle ws out
                {| server := server sys;
                   requests := <[ws := (r, room_code)]> (requests sys);
                   running := running sys ∪ {[ws]} |})
  | FrameJson ws r =>
      match requests sys !! ws with
      | Some (GameRoute, room_code) =>
          if decide (ws ∈ running sys)
          then Some (settle ws (game_session ws room_code [r] (server sys)) sys)
          else None
      | _ => None
      end
  | FrameAsgi ws r =>
      match requests sys !! ws with
      | Some (VoiceRoute, room_code) =>
          if decide (ws ∈ running sys)
          then Some (settle ws (voice_session ws room_code [r] (server sys)) sys)
          else None
      | _ => None
      end
  | JoinRequest player_id room_code =>
      Some {| server := (join_room player_id room_code (server sys)).2;
              requests := requests sys;
              running := running sys |}
  | Transport ws e =>
      Some {| server := set_faults (match e with
                                    | Some x => <[ws := x]> (faults (server sys))
                                    | None => delete ws (faults (server sys))
                                    end) (server sys);
              requests := requests sys;
              running := running sys |}
  end.

Fixpoint steps (sys : System) (evs : list event) : option System :=
  match evs with
  | [] => Some sys
  | ev :: evs' =>
      match step sys ev with
      | Some sys' => steps sys' evs'
      | None => None
      end
  end.

Definition reachable (sys : System) : Prop :=
  ∃ evs, steps System_init evs = Some sys.

(** Every member of a membership set is a socket of a request on the route
    of that kind for that room. *)
Definition members_bound (sys : System) : Prop :=
  ∀ room k ws,
    ws ∈ members (manager (server sys)) room k →
    requests sys !! ws = Some (route_of k, room).

Definition kind_of (r : route) : kind :=
  match r with
  | GameRoute => STATE
  | VoiceRoute => VOICE
  end.

(** Every handler suspended in a read has its socket in the membership set
    of its room and kind. *)
Definition running_registered (sys : System) : Prop :=
  ∀ ws, ws ∈ running sys →
    ∃ r room, requests sys !! ws = Some (r, room) ∧
              ws ∈ members (manager (server sys)) room (kind_of r).

(** What one read does in a handler, on either route: the frame is
    forwarded and the handler keeps running, or [WebSocketDisconnect] makes
    it deregister and return, or another exception leaves the handler with
    the state untouched. *)
Inductive read_effect (ws : nat) (room : string) (s : Server)
  : result progress * Server → Prop :=
  | read_forwards calls : read_effect ws room s (Ok Blocked, logged calls s)
  | read_closes :
      read_effect ws room s
        (Ok Finished, set_manager (purged room ws (manager s)) s)
  | read_fails e : read_effect ws room s (Raise e, s).

(** ** Concrete inputs used in the examples *)

Definition move_message : value :=
  VDict [("type", VStr "move"); ("piece", VStr "R1"); ("to", VInt 5)].

Definition deadbeef : list Byte.byte :=
  [Byte.xde; Byte.xad; Byte.xbe; Byte.xef].

(** A binary frame and a text frame as [websocket.receive()] returns them. *)
Definition binary_frame : gmap string value :=
  {[ "type" := VStr "websocket.receive"; "bytes" := VBytes deadbeef;
     "text" := VNone ]}.

(** What [websocket.receive()] returns when the peer has closed. *)
Definition disconnect_frame : gmap string value :=
  {[ "type" := VStr "websocket.disconnect"; "code" := VInt 1000 ]}.

Definition text_frame : gmap string value :=
  {[ "type" := VStr "websocket.receive"; "bytes" := VNone;
     "text" := VStr "ping" ]}.

(** Sockets 1 and 2 on the game route and socket 3 on the voice route,
    all for room R1. *)
Definition demo_events : list event :=
  [Upgrade 1 GameRoute "R1"; Upgrade 2 GameRoute "R1"; Upgrade 3 VoiceRoute "R1"].

Definition demo_system : System :=
  default System_init (steps System_init demo_events).

(** The socket and the room a registry operation names. *)
Definition op_socket (o : op) : nat :=
  match o with
  | Connect _ _ ws | Disconnect _ ws => ws
  end.

Definition op_room (o : op) : string :=
  match o with
  | Connect room _ _ | Disconnect room _ => room
  end.

(** The sockets a sequence of registry operations connects, in order. *)
Definition connect_sockets (ops : list op) : list nat :=
  omap (λ o, match o with
             | Connect _ _ ws => Some ws
             | Disconnect _ _ => None
             end) ops.

(** Every connect of the sequence is on a socket of its own, one that has
    not been accepted in state [s]. *)
Definition fresh_connects (ops : list op) (s : Server) : Prop :=
  NoDup (connect_sockets ops) ∧
  ∀ ws, ws ∈ connect_sockets ops → was_accepted ws (wire s) = false.

(** A handle connected, disconnected and connected again. *)
Definition reconnect_ops : list op :=
  [Connect "R1" STATE 1; Disconnect "R1" 1; Connect "R1" STATE 1].

(** What one pass of the loop of [voice_endpoint] forwards of a message:
    the value under [bytes] when the key is there and the value is not
    [None]. *)
Definition forwarded (msg : gmap string value) : option value :=
  match msg !! "bytes" with
  | Some v => if is_not_None v then Some v else None
  | None => None
  end.

(** A game socket whose handler ended on a frame that is not JSON, then a
    second socket that plays a move and leaves. *)
Definition crash_events : list event :=
  [Upgrade 7 GameRoute "R1"; FrameJson 7 (Raise JSONDecodeError)].

Definition crashed_system : System :=
  default System_init (steps System_init crash_events).

Definition later_events : list event :=
  [Upgrade 8 GameRoute "R1"; FrameJson 8 (Ok move_message);
   JoinRequest "p7" "R1"; FrameJson 8 (Raise WebSocketDisconnect)].

(** The calls of successive fan-outs of the payloads [ps] over the same
    snapshot [l]. *)
Fixpoint relay (mk : nat → value → bool → io) (s : Server) (l : list nat)
    (ps : list value) : list io :=
  match ps with
  | [] => []
  | p :: ps' => fanout mk s p l ++ relay mk s l ps'
  end.

(** * Properties *)

(** ** Dict and set operations *)

Section dict_lemmas.
Implicit Types (d : rooms) (k room : string) (x ws : nat).

Lemma dict_get_setdefault_add d k x k' :
  dict_get (setdefault_add d k x) k'
  = if decide (k = k') then dict_get d k ∪ {[x]} else dict_get d k'.
Proof.
  unfold setdefault_add, dict_get.
  destruct (d !! k) as [s|] eqn:Hk; case_decide; simplify_map_eq;
    first [done | set_solver].
Qed.

Lemma setdefault_add_lookup_ne d k x k' :
  k ≠ k' → setdefault_add d k x !! k' = d !! k'.
Proof.
  intros ?. unfold setdefault_add.
  destruct (d !! k); by rewrite lookup_insert_ne.
Qed.

(** The guarded removal never raises: it returns the dict with [x] taken
    out of the set under [k], or the dict as it was. *)
Lemma discard_member_Ok d k x :
  discard_member d k x
  = Ok (discarded d k x).
Proof.
  unfold discarded, discard_member, dict_contains, dict_getitem, dict_get, set_remove.
  destruct (d !! k) as [s|] eqn:Hk; simpl.
  - destruct (decide (x ∈ s)); done.
  - by rewrite decide_False by set_solver.
Qed.

Lemma dict_get_discarded d k x k' :
  dict_get (discarded d k x) k'
  = if decide (k = k') then dict_get d k ∖ {[x]} else dict_get d k'.
Proof.
  unfold discarded, dict_get.
  destruct (decide (x ∈ default ∅ (d !! k))) as [Hin|Hout];
    case_decide; simplify_map_eq; first [done | set_solver].
Qed.

Lemma discarded_lookup_ne d k x k' :
  k ≠ k' → discarded d k x !! k' = d !! k'.
Proof.
  intros ?. unfold discarded. case_decide; [by rewrite lookup_insert_ne | done].
Qed.

Lemma discarded_dom d k x : dom (discarded d k x) = dom d.
Proof.
  unfold discarded, dict_get. case_decide as Hin; [|done].
  destruct (d !! k) as [s|] eqn:Hk; simpl in Hin; [|set_solver].
  rewrite dom_insert_L. apply elem_of_dom_2 in Hk. set_solver.
Qed.

Lemma discarded_absent d k x : x ∉ dict_get d k → discarded d k x = d.
Proof. intros ?. unfold discarded. by rewrite decide_False. Qed.

Lemma discarded_idem d k x : discarded (discarded d k x) k x = discarded d k x.
Proof.
  apply discarded_absent. rewrite dict_get_discarded, decide_True by done.
  set_solver.
Qed.
End dict_lemmas.

(** ** Registry operations *)

Section registry_lemmas.
Implicit Types (m : ConnectionManager) (s : Server) (room : string)
  (k : kind) (ws : nat).

Lemma was_accepted_app ws l1 l2 :
  was_accepted ws (l1 ++ l2) = was_accepted ws l1 || was_accepted ws l2.
Proof. apply existsb_app. Qed.

Lemma was_accepted_accept ws ws' :
  was_accepted ws [IoAccept ws'] = bool_decide (ws' = ws).
Proof. unfold was_accepted; simpl. by rewrite orb_false_r. Qed.

Lemma accept_run ws s :
  was_accepted ws (wire s) = false →
  accept ws s = (Ok (), logged [IoAccept ws] s).
Proof. intros H. unfold accept. by rewrite H. Qed.

Lemma accept_raises ws s :
  was_accepted ws (wire s) = true →
  accept ws s = (Raise RuntimeError, s).
Proof. intros H. unfold accept. by rewrite H. Qed.

Lemma register_run room k ws s :
  was_accepted ws (wire s) = false →
  register room k ws s
  = (Ok (), set_manager (registered room k ws (manager s)) (logged [IoAccept ws] s)).
Proof.
  intros H. destruct k; unfold register, connect, mbind, py_bind;
    by rewrite accept_run.
Qed.

Lemma register_raises room k ws s :
  was_accepted ws (wire s) = true →
  register room k ws s = (Raise RuntimeError, s).
Proof.
  intros H. destruct k; unfold register, connect, mbind, py_bind;
    by rewrite accept_raises.
Qed.

Lemma connect_run room ws s :
  was_accepted ws (wire s) = false →
  connect room ws s
  = (Ok (), set_manager (registered room STATE ws (manager s)) (logged [IoAccept ws] s)).
Proof. apply (register_run room STATE). Qed.

Lemma connect_raises room ws s :
  was_accepted ws (wire s) = true →
  connect room ws s = (Raise RuntimeError, s).
Proof. apply (register_raises room STATE). Qed.

Lemma disconnect_run room ws s :
  disconnect room ws s = (Ok (), set_manager (purged room ws (manager s)) s).
Proof.
  unfold disconnect, update_active, update_voice, mbind, py_bind.
  rewrite discard_member_Ok; simpl. by rewrite discard_member_Ok.
Qed.

Lemma members_registered room k ws m room' k' :
  members (registered room k ws m) room' k'
  = if decide (room = room' ∧ k = k')
    then members m room' k' ∪ {[ws]} else members m room' k'.
Proof.
  unfold members.
  destruct k, k'; simpl; rewrite ?dict_get_setdefault_add;
    repeat case_decide; naive_solver.
Qed.

Lemma members_purged room ws m room' k' :
  members (purged room ws m) room' k'
  = if decide (room = room')
    then members m room' k' ∖ {[ws]} else members m room' k'.
Proof.
  unfold members.
  destruct k'; simpl; rewrite dict_get_discarded; repeat case_decide; naive_solver.
Qed.

Lemma purged_idem room ws m : purged room ws (purged room ws m) = purged room ws m.
Proof. unfold purged; simpl. by rewrite !discarded_idem. Qed.

Lemma purged_absent room ws m :
  ws ∉ members m room STATE → ws ∉ members m room VOICE → purged room ws m = m.
Proof.
  unfold members, purged; simpl. intros ??.
  rewrite !discarded_absent by done. by destruct m.
Qed.
End registry_lemmas.

(** ** Broadcast *)

Section broadcast_lemmas.
Implicit Types (s : Server) (room : string) (ws : nat) (p : value)
  (l : list nat) (mk : nat → value → bool → io).

Lemma logged_nil s : logged [] s = s.
Proof. destruct s. unfold logged; simpl. by rewrite app_nil_r. Qed.

Lemma logged_logged c1 c2 s : logged c2 (logged c1 s) = logged (c1 ++ c2) s.
Proof. unfold logged; simpl. by rewrite app_assoc. Qed.

Lemma new_calls_logged c s : new_calls s (logged c s) = c.
Proof. unfold new_calls, logged; simpl. by rewrite drop_app_length. Qed.

Lemma try_pass_send_json ws p s :
  try_pass (send_json ws p) s = (Ok (), logged [IoSendJson ws p (healthy s ws)] s).
Proof.
  unfold try_pass, send_json, healthy.
  destruct (faults s !! ws); done.
Qed.

Lemma try_pass_send_bytes ws p s :
  try_pass (send_bytes ws p) s = (Ok (), logged [IoSendBytes ws p (healthy s ws)] s).
Proof.
  unfold try_pass, send_bytes, healthy.
  destruct (faults s !! ws); done.
Qed.

(** A loop whose body logs one call and never raises runs to its end. *)
Lemma for_each_fanout mk p (body : nat → py Server ()) l s :
  (∀ ws s0, body ws s0 = (Ok (), logged [mk ws p (healthy s0 ws)] s0)) →
  for_each l body s = (Ok (), logged (fanout mk s p l) s).
Proof.
  intros Hbody. revert s.
  induction l as [|ws l IH]; intros s; simpl.
  - by rewrite logged_nil.
  - unfold mbind, py_bind. rewrite Hbody, IH, logged_logged. done.
Qed.

Lemma broadcast_run room p s :
  broadcast room p s
  = (Ok (), logged (fanout IoSendJson s p
                      (snapshot (active_connections (manager s)) room)) s).
Proof.
  unfold broadcast, mbind, py_bind, get_state.
  apply for_each_fanout. intros. apply try_pass_send_json.
Qed.

Lemma broadcast_voice_run room p s :
  broadcast_voice room p s
  = (Ok (), logged (fanout IoSendBytes s p
                      (snapshot (voice_connections (manager s)) room)) s).
Proof.
  unfold broadcast_voice, mbind, py_bind, get_state.
  apply for_each_fanout. intros. apply try_pass_send_bytes.
Qed.

Lemma snapshot_NoDup (d : rooms) room : NoDup (snapshot d room).
Proof. apply NoDup_elements. Qed.

Lemma elem_of_snapshot (d : rooms) room ws :
  ws ∈ snapshot d room ↔ ws ∈ dict_get d room.
Proof. apply elem_of_elements. Qed.

Lemma sent_to_cons mk x p ok log ws :
  mk = IoSendJson ∨ mk = IoSendBytes →
  sent_to ws (mk x p ok :: log)
  = if decide (x = ws) then p :: sent_to ws log else sent_to ws log.
Proof. intros [-> | ->]; unfold sent_to; simpl; by case_decide. Qed.

Lemma received_by_cons mk x p ok log ws :
  mk = IoSendJson ∨ mk = IoSendBytes →
  received_by ws (mk x p ok :: log)
  = if decide (x = ws) then (if ok then p :: received_by ws log
                             else received_by ws log)
    else received_by ws log.
Proof.
  intros [-> | ->]; unfold received_by; simpl; case_decide; by destruct ok.
Qed.

Lemma fanout_cons mk s p x l :
  fanout mk s p (x :: l) = mk x p (healthy s x) :: fanout mk s p l.
Proof. done. Qed.

Lemma sent_to_fanout_out mk s p l ws :
  mk = IoSendJson ∨ mk = IoSendBytes →
  ws ∉ l → sent_to ws (fanout mk s p l) = [].
Proof.
  intros Hmk. induction l as [|x l IH]; [done|].
  intros [Hx Hl]%not_elem_of_cons. rewrite fanout_cons.
  rewrite (sent_to_cons mk x p), decide_False by done. by apply IH.
Qed.

Lemma sent_to_fanout_in mk s p l ws :
  mk = IoSendJson ∨ mk = IoSendBytes →
  NoDup l → ws ∈ l → sent_to ws (fanout mk s p l) = [p].
Proof.
  intros Hmk. induction l as [|x l IH]; [by intros _ ?%elem_of_nil|].
  intros [Hx Hl]%NoDup_cons [->|Hin]%elem_of_cons; rewrite fanout_cons;
    rewrite (sent_to_cons mk) by done.
  - rewrite decide_True by done. f_equal. by apply sent_to_fanout_out.
  - rewrite decide_False by (intros ->; done). by apply IH.
Qed.

Lemma received_by_fanout_out mk s p l ws :
  mk = IoSendJson ∨ mk = IoSendBytes →
  ws ∉ l → received_by ws (fanout mk s p l) = [].
Proof.
  intros Hmk. induction l as [|x l IH]; [done|].
  intros [Hx Hl]%not_elem_of_cons. rewrite fanout_cons.
  rewrite (received_by_cons mk x p), decide_False by done. by apply IH.
Qed.

Lemma received_by_fanout_in mk s p l ws :
  mk = IoSendJson ∨ mk = IoSendBytes →
  NoDup l → ws ∈ l →
  received_by ws (fanout mk s p l) = if healthy s ws then [p] else [].
Proof.
  intros Hmk. induction l as [|x l IH]; [by intros _ ?%elem_of_nil|].
  intros [Hx Hl]%NoDup_cons [->|Hin]%elem_of_cons; rewrite fanout_cons;
    rewrite (received_by_cons mk) by done.
  - rewrite decide_True by done.
    by rewrite (received_by_fanout_out mk s p l x Hmk Hx).
  - rewrite decide_False by (intros ->; done). by apply IH.
Qed.

Lemma elem_of_fanout mk s p l a :
  a ∈ fanout mk s p l ↔ ∃ ws, ws ∈ l ∧ a = mk ws p (healthy s ws).
Proof. unfold fanout. rewrite list_elem_of_fmap. naive_solver. Qed.
End broadcast_lemmas.

(** ** Handler loops *)

Section session_lemmas.
Implicit Types (s : Server) (room : string) (ws : nat).

Lemma game_turn_Ok room data s :
  game_turn room (Ok data) s
  = (Ok (), logged (fanout IoSendJson s data
                      (snapshot (active_connections (manager s)) room)) s).
Proof. unfold game_turn, receive_json, lift, mbind, py_bind. apply broadcast_run. Qed.

Lemma game_turn_Raise room e s : game_turn room (Raise e) s = (Raise e, s).
Proof. done. Qed.

Lemma voice_turn_Ok room msg s :
  voice_turn room (Ok msg) s = (Ok (), logged (voice_calls room msg s) s).
Proof.
  unfold voice_turn, voice_calls, receive, lift, msg_getitem, mbind, py_bind.
  destruct (msg !! "bytes") as [v|] eqn:Hb; simpl.
  - destruct (is_not_None v); [apply broadcast_voice_run | by rewrite logged_nil].
  - by rewrite logged_nil.
Qed.

Lemma voice_turn_Raise room e s : voice_turn room (Raise e) s = (Raise e, s).
Proof. done. Qed.

(** A pass that completes hands the loop, inside its [try], to the next
    read. *)
Lemma try_while_True_step {R} (turn : R → py Server ()) handler r inbox s s' :
  turn r s = (Ok (), s') →
  try_except (while_True turn (r :: inbox)) WebSocketDisconnect handler s
  = try_except (while_True turn inbox) WebSocketDisconnect handler s'.
Proof.
  intros Hr. unfold try_except; simpl. unfold mbind, py_bind. by rewrite Hr.
Qed.

(** A read that raises leaves the loop: [WebSocketDisconnect] runs the
    handler, anything else goes up. *)
Lemma try_while_True_raise {R} (turn : R → py Server ()) handler r inbox s e :
  turn r s = (Raise e, s) →
  try_except (while_True turn (r :: inbox)) WebSocketDisconnect handler s
  = if decide (e = WebSocketDisconnect) then handler s else (Raise e, s).
Proof.
  intros Hr. unfold try_except; simpl. unfold mbind, py_bind. by rewrite Hr.
Qed.

Lemma closing_handler room ws s :
  (disconnect room ws ;; mret Finished) s
  = (Ok Finished, set_manager (purged room ws (manager s)) s).
Proof. unfold mbind, py_bind. by rewrite disconnect_run. Qed.

(** Frames that arrive, then a read that raises [e]. *)
Lemma game_session_frames ws room frames e rest s :
  ∃ calls,
    game_session ws room ((Ok <$> frames) ++ Raise e :: rest) s
    = if decide (e = WebSocketDisconnect)
      then (Ok Finished, set_manager (purged room ws (manager s)) (logged calls s))
      else (Raise e, logged calls s).
Proof.
  unfold game_session. revert s.
  induction frames as [|d frames IH]; intros s;
    rewrite ?fmap_nil, ?fmap_cons, ?app_nil_l, <- ?app_comm_cons.
  - exists []. rewrite logged_nil.
    rewrite (try_while_True_raise _ _ _ _ s e) by done.
    case_decide; [apply closing_handler | done].
  - erewrite try_while_True_step by apply game_turn_Ok.
    destruct (IH (logged (fanout IoSendJson s d
                 (snapshot (active_connections (manager s)) room)) s))
      as [calls ->].
    eexists. rewrite logged_logged. done.
Qed.

(** With frames only, the handler is left suspended in its read. *)
Lemma game_session_blocked ws room frames s :
  ∃ calls, game_session ws room (Ok <$> frames) s = (Ok Blocked, logged calls s).
Proof.
  unfold game_session. revert s.
  induction frames as [|d frames IH]; intros s;
    rewrite ?fmap_nil, ?fmap_cons.
  - exists []. by rewrite logged_nil.
  - erewrite try_while_True_step by apply game_turn_Ok.
    destruct (IH (logged (fanout IoSendJson s d
                 (snapshot (active_connections (manager s)) room)) s))
      as [calls ->].
    eexists. by rewrite logged_logged.
Qed.

Lemma voice_session_blocked ws room frames s :
  ∃ calls, voice_session ws room (Ok <$> frames) s = (Ok Blocked, logged calls s).
Proof.
  unfold voice_session. revert s.
  induction frames as [|d frames IH]; intros s;
    rewrite ?fmap_nil, ?fmap_cons.
  - exists []. by rewrite logged_nil.
  - erewrite try_while_True_step by apply voice_turn_Ok.
    destruct (IH (logged (voice_calls room d s) s)) as [calls ->].
    eexists. by rewrite logged_logged.
Qed.
End session_lemmas.

(** ** Registry claims *)

Section registry_claims.
Implicit Types (s : Server) (room : string) (k : kind) (ws : nat).

Lemma table_purged room ws m k :
  table k (purged room ws m) = discarded (table k m) room ws.
Proof. by destruct k. Qed.

Lemma dom_setdefault_add (d : rooms) room ws :
  dom (setdefault_add d room ws) = {[room]} ∪ dom d.
Proof. unfold setdefault_add. destruct (d !! room); apply dom_insert_L. Qed.

Lemma dom_registered room k ws m : room ∈ dom (table k (registered room k ws m)).
Proof. destruct k; simpl; rewrite dom_setdefault_add; set_solver. Qed.

Lemma repeat_disconnect n room ws s :
  repeat_call (S n) (disconnect room ws) s = disconnect room ws s.
Proof.
  revert s. induction n as [|n IH]; intros s.
  - simpl. unfold mbind, py_bind. by rewrite disconnect_run.
  - change (repeat_call (S (S n)) (disconnect room ws) s)
      with (match disconnect room ws s with
            | (Ok _, s') => repeat_call (S n) (disconnect room ws) s'
            | (Raise e, s') => (Raise e, s')
            end).
    rewrite disconnect_run, IH, disconnect_run. simpl.
    by rewrite purged_idem.
Qed.

(** C4: [disconnect(room, handle)] takes [handle] out of the STATE set
    and out of the VOICE set of [room], whichever it was registered
    under; where the handle is absent the table of that kind is left as
    it was and nothing is raised; the call can be repeated any number of
    times with the same outcome. *)
Theorem disconnect_removes_from_both_kinds room ws s :
  ∃ s',
    disconnect room ws s = (Ok (), s') ∧
    (∀ k, members (manager s') room k = members (manager s) room k ∖ {[ws]}) ∧
    (∀ k, ws ∉ members (manager s) room k →
          table k (manager s') = table k (manager s)) ∧
    (∀ n, repeat_call (S n) (disconnect room ws) s = (Ok (), s')).
Proof.
  eexists. split; [apply disconnect_run|]. split; [|split].
  - intros k. simpl. by rewrite members_purged, decide_True.
  - intros k Hout. simpl. rewrite table_purged. by apply discarded_absent.
  - intros n. rewrite repeat_disconnect. apply disconnect_run.
Qed.

(** C9 fails as stated.  On connect, disconnect, connect of one handle
    the second [accept] raises [RuntimeError] before the set is touched,
    and the STATE set of the room ends empty, not of size 1. *)
Example reconnect_same_handle_raises :
  ∃ s3,
    run_ops reconnect_ops Server_init = (Raise RuntimeError, s3) ∧
    members (manager s3) "R1" STATE = ∅ ∧
    size (members (manager s3) "R1" STATE) = 0 ∧
    wire s3 = [IoAccept 1].
Proof. eexists. split; [reflexivity|]. by vm_compute. Qed.

(** C9, as the code has it: registration of a handle that has not been
    accepted before succeeds and adds the handle to the membership set of
    [(room, kind)], creating the set when the room has none; the handle
    is then accepted, and registering it again, under any room and kind,
    raises [RuntimeError] at [accept] and leaves the state as it was, so
    no set ever holds a handle twice; connect, disconnect, connect of the
    same handle on an empty registry ends in that raise with the STATE
    set empty. *)
Theorem connect_registers_unaccepted_handle room k ws s :
  (was_accepted ws (wire s) = false →
   ∃ s',
     register room k ws s = (Ok (), s') ∧
     members (manager s') room k = members (manager s) room k ∪ {[ws]} ∧
     is_Some (table k (manager s') !! room) ∧
     was_accepted ws (wire s') = true) ∧
  (was_accepted ws (wire s) = true →
   ∀ room' k', register room' k' ws s = (Raise RuntimeError, s)) ∧
  ∃ s1 s2,
    connect room ws Server_init = (Ok (), s1) ∧
    disconnect room ws s1 = (Ok (), s2) ∧
    connect room ws s2 = (Raise RuntimeError, s2) ∧
    run_ops [Connect room STATE ws; Disconnect room ws; Connect room STATE ws]
      Server_init = (Raise RuntimeError, s2) ∧
    members (manager s1) room STATE = {[ws]} ∧
    members (manager s2) room STATE = ∅ ∧
    size (members (manager s2) room STATE) = 0.
Proof.
  split; [|split].
  - intros Hnew. eexists. split; [by apply register_run|]. simpl.
    split; [|split].
    + by rewrite members_registered, decide_True.
    + apply (elem_of_dom (table k _) room). apply dom_registered.
    + rewrite was_accepted_app, was_accepted_accept, bool_decide_true by done.
      apply orb_true_r.
  - intros Hold room' k'. by apply register_raises.
  - assert (was_accepted ws (wire Server_init) = false) as H0 by done.
    assert (was_accepted ws (wire (set_manager
              (purged room ws (registered room STATE ws ConnectionManager_init))
              (set_manager (registered room STATE ws ConnectionManager_init)
                 (logged [IoAccept ws] Server_init)))) = true) as H2.
    { simpl. by rewrite bool_decide_true. }
    eexists _, _. split; [by apply connect_run|].
    split; [apply disconnect_run|]. split; [by apply connect_raises|].
    split; [|split; [|split]].
    + simpl. unfold mbind, py_bind.
      rewrite connect_run, disconnect_run, connect_raises by done. reflexivity.
    + cbn [manager set_manager logged Server_init].
      rewrite members_registered, decide_True by done. set_solver.
    + cbn [manager set_manager logged Server_init].
      rewrite members_purged, decide_True by done.
      rewrite members_registered, decide_True by done. set_solver.
    + cbn [manager set_manager logged Server_init].
      rewrite members_purged, decide_True by done.
      rewrite members_registered, decide_True by done.
      replace ((members ConnectionManager_init room STATE ∪ {[ws]}) ∖ {[ws]})
        with (∅ : gset nat) by set_solver.
      apply size_empty.
Qed.

(** C10: [connect(room, handle)] changes the STATE entry of [room] only;
    [disconnect(room, handle)] changes at most the STATE and VOICE
    entries of [room] and creates no entry; every other room, present or
    absent, keeps what it has under both kinds. *)
Theorem connect_disconnect_frame room ws s :
  (voice_connections (manager (connect room ws s).2)
     = voice_connections (manager s) ∧
   ∀ room', room' ≠ room →
     active_connections (manager (connect room ws s).2) !! room'
     = active_connections (manager s) !! room') ∧
  (∀ k,
     dom (table k (manager (disconnect room ws s).2)) = dom (table k (manager s)) ∧
     ∀ room', room' ≠ room →
       table k (manager (disconnect room ws s).2) !! room'
       = table k (manager s) !! room').
Proof.
  rewrite disconnect_run. simpl. split.
  - destruct (was_accepted ws (wire s)) eqn:Hacc.
    + by rewrite connect_raises.
    + rewrite connect_run by done. simpl. split; [done|].
      intros room' Hne. by apply setdefault_add_lookup_ne.
  - intros k. rewrite table_purged. split.
    + apply discarded_dom.
    + intros room' Hne. by apply discarded_lookup_ne.
Qed.
End registry_claims.

(** ** Sequences of registry operations *)

Section ops_claims.
Implicit Types (s : Server) (room : string) (k : kind) (ws : nat)
  (o : op) (ops : list op).

Lemma fresh_connects_nil s : fresh_connects [] s.
Proof. split; [constructor | by intros ws ?%elem_of_nil]. Qed.

Lemma run_op_run o s :
  fresh_connects [o] s →
  ∃ calls, run_op o s = (Ok (), set_manager (apply_op o (manager s)) (logged calls s)).
Proof.
  intros [_ Hnew]. destruct o as [room k ws | room ws]; simpl.
  - exists [IoAccept ws]. apply register_run. apply Hnew. simpl. set_solver.
  - exists []. rewrite logged_nil. apply disconnect_run.
Qed.

(** An operation that runs leaves the operations after it runnable. *)
Lemma fresh_connects_cons o ops s s' :
  fresh_connects (o :: ops) s →
  run_op o s = (Ok (), s') →
  fresh_connects [o] s ∧ fresh_connects ops s'.
Proof.
  intros [Hnd Hnew] Hrun. destruct o as [room k ws | room ws]; simpl in *.
  - apply NoDup_cons in Hnd as [Hout Hnd].
    rewrite register_run in Hrun by (apply Hnew; set_solver).
    injection Hrun as <-. repeat split.
    + apply NoDup_singleton.
    + intros ws' ->%list_elem_of_singleton. apply Hnew. set_solver.
    + done.
    + intros ws' Hin. simpl.
      rewrite was_accepted_app, was_accepted_accept, Hnew by set_solver.
      rewrite bool_decide_false; [done|]. by intros ->.
  - rewrite disconnect_run in Hrun. injection Hrun as <-. repeat split.
    + constructor.
    + by intros ws' ?%elem_of_nil.
    + done.
    + intros ws' Hin. simpl. by apply Hnew.
Qed.

Lemma fresh_connects_head o ops s :
  fresh_connects (o :: ops) s → fresh_connects [o] s.
Proof.
  intros [Hnd Hnew]. destruct o as [room k ws | room ws]; simpl in *.
  - split; [apply NoDup_singleton|].
    intros ws' ->%list_elem_of_singleton. apply Hnew. set_solver.
  - apply fresh_connects_nil.
Qed.

Lemma member_after_op o m room k ws :
  ws ∈ members (apply_op o m) room k
  ↔ o = Connect room k ws ∨ (ws ∈ members m room k ∧ o ≠ Disconnect room ws).
Proof.
  destruct o as [room0 k0 ws0 | room0 ws0]; simpl.
  - rewrite members_registered. case_decide as Heq.
    + destruct Heq as [-> ->]. rewrite elem_of_union, elem_of_singleton.
      naive_solver.
    + split; [naive_solver|].
      intros [Hc | [? _]]; [|done]. inversion Hc; subst. naive_solver.
  - rewrite members_purged. case_decide as Heq.
    + subst. rewrite elem_of_difference, elem_of_singleton. naive_solver.
    + naive_solver.
Qed.

Lemma connected_not_disconnected_nil room k ws :
  ¬ connected_not_disconnected [] room k ws.
Proof. intros (before & after & Heq & _). by destruct before. Qed.

Lemma connected_not_disconnected_cons o ops room k ws :
  connected_not_disconnected (o :: ops) room k ws
  ↔ (o = Connect room k ws ∧ Disconnect room ws ∉ ops)
    ∨ connected_not_disconnected ops room k ws.
Proof.
  split.
  - intros (before & after & Heq & Hafter).
    destruct before as [|o' before]; simplify_eq/=.
    + by left.
    + right. by exists before, after.
  - intros [[-> Hout] | (before & after & -> & Hafter)].
    + by exists [], ops.
    + by exists (o :: before), after.
Qed.

Lemma run_ops_members ops s room k ws :
  fresh_connects ops s →
  ∃ s',
    run_ops ops s = (Ok (), s') ∧
    (ws ∈ members (manager s') room k
     ↔ connected_not_disconnected ops room k ws
       ∨ (ws ∈ members (manager s) room k ∧ Disconnect room ws ∉ ops)).
Proof.
  revert s. induction ops as [|o ops IH]; intros s Hfresh.
  - exists s. split; [done|].
    pose proof (connected_not_disconnected_nil room k ws).
    pose proof (not_elem_of_nil (Disconnect room ws)). naive_solver.
  - destruct (run_op_run o s) as [calls Ho]; [by eapply fresh_connects_head|].
    destruct (fresh_connects_cons _ _ _ _ Hfresh Ho) as [_ Hfresh'].
    destruct (IH _ Hfresh') as (s' & Hrun & Hmem).
    exists s'. split.
    + simpl. unfold mbind, py_bind. by rewrite Ho.
    + rewrite Hmem. simpl. rewrite member_after_op.
      rewrite connected_not_disconnected_cons, not_elem_of_cons.
      split; [|naive_solver].
      intros [? | [[-> | [? ?]] ?]]; [naive_solver | naive_solver |].
      right. naive_solver.
Qed.

Lemma run_ops_accepted_raises ops room k ws after s :
  fresh_connects ops s →
  was_accepted ws (wire s) = true →
  ∃ s', run_ops (ops ++ Connect room k ws :: after) s = (Raise RuntimeError, s').
Proof.
  revert s. induction ops as [|o ops IH]; intros s Hfresh Hacc.
  - eexists. simpl. unfold mbind, py_bind. by rewrite register_raises.
  - destruct (run_op_run o s) as [calls Ho]; [by eapply fresh_connects_head|].
    destruct (fresh_connects_cons _ _ _ _ Hfresh Ho) as [_ Hfresh'].
    simpl. unfold mbind, py_bind. rewrite Ho. apply IH; [done|].
    simpl. by rewrite was_accepted_app, Hacc.
Qed.

(** A sequence in which a socket is connected a second time stops there:
    the second [accept] raises. *)
Lemma run_ops_reconnect_raises before room k ws after s :
  fresh_connects before s →
  ws ∈ connect_sockets before →
  ∃ s', run_ops (before ++ Connect room k ws :: after) s = (Raise RuntimeError, s').
Proof.
  revert s. induction before as [|o before IH]; intros s Hfresh Hin.
  - by apply elem_of_nil in Hin.
  - pose proof (fresh_connects_head _ _ _ Hfresh) as Hhead.
    destruct o as [room0 k0 ws0 | room0 ws0]; simpl in Hin.
    + assert (run_op (Connect room0 k0 ws0) s
              = (Ok (), set_manager (registered room0 k0 ws0 (manager s))
                          (logged [IoAccept ws0] s))) as Ho.
      { apply register_run, Hhead. simpl. set_solver. }
      destruct (fresh_connects_cons _ _ _ _ Hfresh Ho) as [_ Hfresh'].
      change (run_ops ((Connect room0 k0 ws0 :: before) ++ Connect room k ws :: after) s)
        with (match run_op (Connect room0 k0 ws0) s with
              | (Ok _, s') => run_ops (before ++ Connect room k ws :: after) s'
              | (Raise e, s') => (Raise e, s')
              end).
      rewrite Ho. apply elem_of_cons in Hin as [-> | Hin]; [|by apply IH].
      apply run_ops_accepted_raises; [done|]. simpl.
      rewrite was_accepted_app, was_accepted_accept, bool_decide_true by done.
      apply orb_true_r.
    + pose proof (disconnect_run room0 ws0 s) as Ho.
      destruct (fresh_connects_cons (Disconnect room0 ws0) _ _ _ Hfresh Ho)
        as [_ Hfresh'].
      change (run_ops ((Disconnect room0 ws0 :: before) ++ Connect room k ws :: after) s)
        with (match disconnect room0 ws0 s with
              | (Ok _, s') => run_ops (before ++ Connect room k ws :: after) s'
              | (Raise e, s') => (Raise e, s')
              end).
      rewrite Ho. by apply IH.
Qed.

(** C2 fails as stated.  On connect, disconnect, connect of one handle
    the handle is connected under (R1, STATE) and not disconnected
    afterwards, yet the run stops at the second [accept] and the handle
    is no member. *)
Example reconnect_breaks_membership :
  connected_not_disconnected reconnect_ops "R1" STATE 1 ∧
  ∃ s',
    run_ops reconnect_ops Server_init = (Raise RuntimeError, s') ∧
    (1 ∉ members (manager s') "R1" STATE) ∧
    snapshot (table STATE (manager s')) "R1" = [].
Proof.
  split.
  - exists [Connect "R1" STATE 1; Disconnect "R1" 1], []. split; [done|].
    apply not_elem_of_nil.
  - eexists. split; [reflexivity|]. split; [|by vm_compute].
    vm_compute. discriminate.
Qed.

(** C2, as the code has it: after a sequence of connect and disconnect
    operations on an empty registry in which no handle is connected more
    than once, every operation has succeeded and the membership set of
    [(room, kind)] holds exactly the handles connected under
    [(room, kind)] and not disconnected from [room] afterwards, each
    once; a sequence that connects a handle a second time raises
    [RuntimeError] at that connect. *)
Theorem members_exactly_connected_once ops room k ws :
  NoDup (connect_sockets ops) →
  (∃ s',
     run_ops ops Server_init = (Ok (), s') ∧
     (ws ∈ members (manager s') room k
      ↔ connected_not_disconnected ops room k ws) ∧
     (ws ∈ snapshot (table k (manager s')) room
      ↔ connected_not_disconnected ops room k ws) ∧
     NoDup (snapshot (table k (manager s')) room)) ∧
  ∀ ws' room' k' after, ws' ∈ connect_sockets ops →
    ∃ s', run_ops (ops ++ Connect room' k' ws' :: after) Server_init
          = (Raise RuntimeError, s').
Proof.
  intros Hnd. assert (fresh_connects ops Server_init) as Hfresh by done.
  split.
  - destruct (run_ops_members ops Server_init room k ws Hfresh)
      as (s' & Hrun & Hmem).
    exists s'. split; [done|].
    assert (ws ∈ members (manager s') room k
            ↔ connected_not_disconnected ops room k ws) as Hiff.
    { rewrite Hmem. split; [|by left].
      intros [? | [Hin _]]; [done|]. by destruct k. }
    split; [done|]. split; [|apply snapshot_NoDup].
    by rewrite elem_of_snapshot.
  - intros ws' room' k' after Hin. by apply run_ops_reconnect_raises.
Qed.

(** Three sockets connected once each and one of them disconnected: socket
    2 is a member of (R1, STATE) at the end. *)
Lemma members_exactly_connected_once_witness :
  ∃ s',
    run_ops [Connect "R1" STATE 1; Connect "R1" STATE 2; Connect "R1" VOICE 3;
             Disconnect "R1" 1] Server_init = (Ok (), s') ∧
    2 ∈ members (manager s') "R1" STATE.
Proof.
  destruct (members_exactly_connected_once
              [Connect "R1" STATE 1; Connect "R1" STATE 2; Connect "R1" VOICE 3;
               Disconnect "R1" 1] "R1" STATE 2) as [(s' & Hrun & Hmem & _) _].
  - vm_compute. repeat constructor; set_solver.
  - exists s'. split; [done|]. apply Hmem.
    exists [Connect "R1" STATE 1], [Connect "R1" VOICE 3; Disconnect "R1" 1].
    split; [done|]. set_solver.
Defined.
End ops_claims.

(** ** The server as a whole *)

Section system_lemmas.
Implicit Types (s : Server) (sys : System) (room : string) (k : kind) (ws : nat).

Lemma websocket_endpoint_connect ws room inbox s :
  was_accepted ws (wire s) = false →
  websocket_endpoint ws room inbox s
  = game_session ws room inbox
      (set_manager (registered room STATE ws (manager s)) (logged [IoAccept ws] s)).
Proof.
  intros H. unfold websocket_endpoint, mbind, py_bind. by rewrite connect_run.
Qed.

Lemma voice_endpoint_connect ws room inbox s :
  was_accepted ws (wire s) = false →
  voice_endpoint ws room inbox s
  = voice_session ws room inbox
      (set_manager (registered room VOICE ws (manager s)) (logged [IoAccept ws] s)).
Proof.
  intros H. unfold voice_endpoint, mbind, py_bind. by rewrite accept_run.
Qed.

Lemma websocket_endpoint_raises ws room inbox s :
  was_accepted ws (wire s) = true →
  websocket_endpoint ws room inbox s = (Raise RuntimeError, s).
Proof.
  intros H. unfold websocket_endpoint, mbind, py_bind. by rewrite connect_raises.
Qed.

Lemma voice_endpoint_raises ws room inbox s :
  was_accepted ws (wire s) = true →
  voice_endpoint ws room inbox s = (Raise RuntimeError, s).
Proof.
  intros H. unfold voice_endpoint, mbind, py_bind. by rewrite accept_raises.
Qed.

Lemma websocket_endpoint_nil ws room s :
  was_accepted ws (wire s) = false →
  websocket_endpoint ws room [] s
  = (Ok Blocked, set_manager (registered room STATE ws (manager s))
                   (logged [IoAccept ws] s)).
Proof. intros H. by rewrite websocket_endpoint_connect. Qed.

Lemma voice_endpoint_nil ws room s :
  was_accepted ws (wire s) = false →
  voice_endpoint ws room [] s
  = (Ok Blocked, set_manager (registered room VOICE ws (manager s))
                   (logged [IoAccept ws] s)).
Proof. intros H. by rewrite voice_endpoint_connect. Qed.

(** An upgrade starts the handler of its route: the socket is accepted,
    registered and its handler suspended in the first read; on a socket
    accepted before, the handler ends at [accept] with nothing changed. *)
Lemma upgrade_step sys ws r room sys' :
  step sys (Upgrade ws r room) = Some sys' →
  requests sys !! ws = None ∧
  (sys' = {| server := set_manager (registered room (kind_of r) ws
                                      (manager (server sys)))
                         (logged [IoAccept ws] (server sys));
             requests := <[ws := (r, room)]> (requests sys);
             running := running sys ∪ {[ws]} |}
   ∨ sys' = {| server := server sys;
               requests := <[ws := (r, room)]> (requests sys);
               running := (running sys ∪ {[ws]}) ∖ {[ws]} |}).
Proof.
  simpl. case_decide as Hfresh; [done|]. apply not_elem_of_dom in Hfresh.
  intros [= <-]. split; [done|].
  destruct (was_accepted ws (wire (server sys))) eqn:Hacc.
  - right. destruct r;
      by rewrite ?websocket_endpoint_raises, ?voice_endpoint_raises.
  - left. destruct r;
      by rewrite ?websocket_endpoint_nil, ?voice_endpoint_nil.
Qed.

Lemma game_session_one ws room r s :
  game_session ws room [r] s
  = match r with
    | Ok data =>
        (Ok Blocked, logged (fanout IoSendJson s data
                               (snapshot (active_connections (manager s)) room)) s)
    | Raise e =>
        if decide (e = WebSocketDisconnect)
        then (Ok Finished, set_manager (purged room ws (manager s)) s)
        else (Raise e, s)
    end.
Proof.
  unfold game_session. destruct r as [data|e].
  - by erewrite try_while_True_step by apply game_turn_Ok.
  - rewrite (try_while_True_raise _ _ _ _ s e) by done.
    case_decide; [apply closing_handler | done].
Qed.

Lemma voice_session_one ws room r s :
  voice_session ws room [r] s
  = match r with
    | Ok msg => (Ok Blocked, logged (voice_calls room msg s) s)
    | Raise e =>
        if decide (e = WebSocketDisconnect)
        then (Ok Finished, set_manager (purged room ws (manager s)) s)
        else (Raise e, s)
    end.
Proof.
  unfold voice_session. destruct r as [msg|e].
  - by erewrite try_while_True_step by apply voice_turn_Ok.
  - rewrite (try_while_True_raise _ _ _ _ s e) by done.
    case_decide; [apply closing_handler | done].
Qed.

(** Running a handler on the reads that complete is running it on the first
    read and, when that leaves it suspended, on the rest: the handlers can
    be driven one read at a time, as [step] does. *)
Lemma game_session_resume ws room r inbox s :
  game_session ws room (r :: inbox) s
  = match game_session ws room [r] s with
    | (Ok Blocked, s') => game_session ws room inbox s'
    | out => out
    end.
Proof.
  rewrite game_session_one. unfold game_session. destruct r as [data|e].
  - by erewrite try_while_True_step by apply game_turn_Ok.
  - rewrite (try_while_True_raise _ _ _ _ s e) by done.
    case_decide; [by rewrite closing_handler | done].
Qed.

Lemma voice_session_resume ws room r inbox s :
  voice_session ws room (r :: inbox) s
  = match voice_session ws room [r] s with
    | (Ok Blocked, s') => voice_session ws room inbox s'
    | out => out
    end.
Proof.
  rewrite voice_session_one. unfold voice_session. destruct r as [msg|e].
  - by erewrite try_while_True_step by apply voice_turn_Ok.
  - rewrite (try_while_True_raise _ _ _ _ s e) by done.
    case_decide; [by rewrite closing_handler | done].
Qed.

Lemma game_session_effect ws room r s :
  read_effect ws room s (game_session ws room [r] s).
Proof.
  rewrite game_session_one. destruct r; [constructor|].
  case_decide; constructor.
Qed.

Lemma voice_session_effect ws room r s :
  read_effect ws room s (voice_session ws room [r] s).
Proof.
  rewrite voice_session_one. destruct r; [constructor|].
  case_decide; constructor.
Qed.

Lemma settle_invariant ws r room out sys :
  requests sys !! ws = Some (r, room) →
  read_effect ws room (server sys) out →
  members_bound sys ∧ running_registered sys →
  members_bound (settle ws out sys) ∧ running_registered (settle ws out sys).
Proof.
  intros Hreq Heff [Hb Hr]. unfold members_bound, running_registered, settle.
  destruct Heff as [calls | | e]; simpl.
  - done.
  - split.
    + intros room' k' ws'. rewrite members_purged.
      case_decide; [|by apply Hb].
      intros [? _]%elem_of_difference. by apply Hb.
    + intros ws' [Hin Hne]%elem_of_difference.
      destruct (Hr ws' Hin) as (r' & room' & Hreq' & Hmem).
      exists r', room'. split; [done|]. rewrite members_purged.
      case_decide; [|done]. apply elem_of_difference. split; [done | set_solver].
  - split; [done|].
    intros ws' [Hin Hne]%elem_of_difference. by apply Hr.
Qed.

Lemma step_invariant sys ev sys' :
  step sys ev = Some sys' →
  members_bound sys ∧ running_registered sys →
  members_bound sys' ∧ running_registered sys'.
Proof.
  intros Hstep [Hb Hr]. destruct ev as [ws r room | ws r | ws r | pl room | ws e];
    [apply upgrade_step in Hstep as [Hfresh [-> | ->]] | simpl in Hstep ..].
  - unfold members_bound, running_registered; simpl. split.
    + intros room' k' ws'. rewrite members_registered.
      case_decide as Heq.
      * destruct Heq as [-> <-].
        intros [Hin | ->%elem_of_singleton]%elem_of_union.
        -- rewrite lookup_insert_ne; [by apply Hb|].
           intros ->. apply Hb in Hin. congruence.
        -- rewrite lookup_insert_eq. by destruct r.
      * intros Hin. rewrite lookup_insert_ne; [by apply Hb|].
        intros ->. apply Hb in Hin. congruence.
    + intros ws' [Hin | ->%elem_of_singleton]%elem_of_union.
      * destruct (Hr ws' Hin) as (r' & room' & Hreq' & Hmem).
        exists r', room'. split.
        -- rewrite lookup_insert_ne; [done | congruence].
        -- rewrite members_registered. case_decide; set_solver.
      * exists r, room. rewrite lookup_insert_eq. split; [done|].
        rewrite members_registered, decide_True by done. set_solver.
  - unfold members_bound, running_registered; simpl. split.
    + intros room' k' ws' Hin. rewrite lookup_insert_ne; [by apply Hb|].
      intros ->. apply Hb in Hin. congruence.
    + intros ws' [[Hin | Hin]%elem_of_union Hne%not_elem_of_singleton]%elem_of_difference;
        [|by apply elem_of_singleton in Hin].
      destruct (Hr ws' Hin) as (r' & room' & Hreq' & Hmem).
      exists r', room'. split; [|done].
      rewrite lookup_insert_ne; [done | congruence].
  - destruct (requests sys !! ws) as [[[] room]|] eqn:Hreq; try done.
    case_decide; [|done]. simplify_eq.
    eapply settle_invariant; eauto using game_session_effect.
  - destruct (requests sys !! ws) as [[[] room]|] eqn:Hreq; try done.
    case_decide; [|done]. simplify_eq.
    eapply settle_invariant; eauto using voice_session_effect.
  - simplify_eq. unfold join_room, mbind, py_bind.
    rewrite broadcast_run. done.
  - by simplify_eq.
Qed.

Lemma steps_invariant evs sys sys' :
  steps sys evs = Some sys' →
  members_bound sys ∧ running_registered sys →
  members_bound sys' ∧ running_registered sys'.
Proof.
  revert sys. induction evs as [|ev evs IH]; intros sys; simpl.
  - by intros [= ->].
  - destruct (step sys ev) as [sys1|] eqn:Hstep; [|done].
    intros Hsteps Hinv. eapply IH; [done|]. by eapply step_invariant.
Qed.

Lemma reachable_invariant sys :
  reachable sys → members_bound sys ∧ running_registered sys.
Proof.
  intros [evs Hsteps]. eapply steps_invariant; [done|]. split.
  - intros room k ws Hin. by destruct k.
  - intros ws Hin. done.
Qed.
End system_lemmas.

(** ** Broadcast claims *)

Section broadcast_claims.
Implicit Types (s : Server) (sys : System) (room : string) (ws : nat)
  (p : value).

Lemma fanout_reaches mk s p l ws :
  mk = IoSendJson ∨ mk = IoSendBytes → NoDup l → ws ∈ l →
  sent_to ws (fanout mk s p l) = [p] ∧
  received_by ws (fanout mk s p l) = if healthy s ws then [p] else [].
Proof.
  intros. split; [by apply sent_to_fanout_in | by apply received_by_fanout_in].
Qed.

(** C5: a broadcast, on either channel, returns normally whatever the
    sockets do; every member of the room's set is sent the payload
    once, whether or not sends to other members fail; a member whose own
    send goes through receives it, a member whose send fails receives
    nothing; the registry is not touched. *)
Theorem broadcast_isolates_send_faults room p s :
  (∃ s',
     broadcast room p s = (Ok (), s') ∧ manager s' = manager s ∧
     ∀ ws, ws ∈ members (manager s) room STATE →
       sent_to ws (new_calls s s') = [p] ∧
       received_by ws (new_calls s s') = if healthy s ws then [p] else []) ∧
  (∃ s',
     broadcast_voice room p s = (Ok (), s') ∧ manager s' = manager s ∧
     ∀ ws, ws ∈ members (manager s) room VOICE →
       sent_to ws (new_calls s s') = [p] ∧
       received_by ws (new_calls s s') = if healthy s ws then [p] else []).
Proof.
  split; eexists;
    (split; [first [apply broadcast_run | apply broadcast_voice_run]|]);
    (split; [done|]); intros ws Hin; rewrite new_calls_logged;
    apply fanout_reaches; auto using snapshot_NoDup;
    by apply elem_of_snapshot.
Qed.

(** One faulty socket among three: the other two receive the message
    and the call returns normally. *)
Example broadcast_with_one_fault :
  let s := set_faults {[ 2 := RuntimeError ]}
             (run_ops [Connect "R1" STATE 1; Connect "R1" STATE 2;
                       Connect "R1" STATE 3] Server_init).2 in
  let out := broadcast "R1" move_message s in
  out.1 = Ok () ∧
  received_by 1 (new_calls s out.2) = [move_message] ∧
  received_by 2 (new_calls s out.2) = [] ∧
  received_by 3 (new_calls s out.2) = [move_message] ∧
  sent_to 2 (new_calls s out.2) = [move_message].
Proof. vm_compute. done. Qed.

Lemma members_one_kind sys room room' ws :
  reachable sys →
  ws ∈ members (manager (server sys)) room STATE →
  ws ∈ members (manager (server sys)) room' VOICE → False.
Proof.
  intros [Hb _]%reachable_invariant Hs Hv.
  apply Hb in Hs. apply Hb in Hv. simpl in *. congruence.
Qed.

(** C6: in every reachable state, each send of a STATE broadcast goes to
    a member of [(room, STATE)], which is a socket of the game route of
    that room, and each send of a VOICE broadcast to a member of
    [(room, VOICE)], a socket of the voice route of that room; a VOICE
    member is sent nothing by a STATE broadcast and a STATE member
    nothing by a VOICE broadcast. *)
Theorem broadcast_targets_own_kind sys room p :
  reachable sys →
  (∀ a, a ∈ new_calls (server sys) (broadcast room p (server sys)).2 →
     ∃ ws ok, a = IoSendJson ws p ok ∧
              ws ∈ members (manager (server sys)) room STATE ∧
              requests sys !! ws = Some (GameRoute, room)) ∧
  (∀ a, a ∈ new_calls (server sys) (broadcast_voice room p (server sys)).2 →
     ∃ ws ok, a = IoSendBytes ws p ok ∧
              ws ∈ members (manager (server sys)) room VOICE ∧
              requests sys !! ws = Some (VoiceRoute, room)) ∧
  (∀ ws room', ws ∈ members (manager (server sys)) room' VOICE →
     sent_to ws (new_calls (server sys) (broadcast room p (server sys)).2) = []) ∧
  (∀ ws room', ws ∈ members (manager (server sys)) room' STATE →
     sent_to ws (new_calls (server sys)
                   (broadcast_voice room p (server sys)).2) = []).
Proof.
  intros Hreach. pose proof (reachable_invariant _ Hreach) as [Hb _].
  rewrite broadcast_run, broadcast_voice_run. simpl.
  rewrite !new_calls_logged. repeat split.
  - intros a (ws & Hin%elem_of_snapshot & ->)%elem_of_fanout.
    exists ws, (healthy (server sys) ws). repeat split; [done|].
    by apply (Hb room STATE).
  - intros a (ws & Hin%elem_of_snapshot & ->)%elem_of_fanout.
    exists ws, (healthy (server sys) ws). repeat split; [done|].
    by apply (Hb room VOICE).
  - intros ws room' Hv. apply sent_to_fanout_out; [by left|].
    intros Hs%elem_of_snapshot. by eapply members_one_kind.
  - intros ws room' Hs. apply sent_to_fanout_out; [by right|].
    intros Hv%elem_of_snapshot. by eapply members_one_kind.
Qed.

Lemma demo_system_reachable : reachable demo_system.
Proof. exists demo_events. by vm_compute. Qed.

(** The scenario of C6: socket 3 is a VOICE member of R1 and socket 2 a
    STATE member; a voice frame relayed to R1 sends nothing to socket 2. *)
Lemma broadcast_targets_own_kind_witness :
  sent_to 2 (new_calls (server demo_system)
               (broadcast_voice "R1" (VBytes deadbeef) (server demo_system)).2) = [].
Proof.
  apply (proj2 (proj2 (proj2
           (broadcast_targets_own_kind demo_system "R1" (VBytes deadbeef)
              demo_system_reachable))) 2 "R1").
  vm_compute. reflexivity.
Defined.

(** C7: when the handler of a game socket reads a message, the message
    is broadcast to the whole STATE set of its room; the reading socket
    is itself in that set; every member is sent the message exactly
    once, and receives it exactly once when its send goes through. *)
Theorem state_message_echoed_to_all sys ws room p :
  reachable sys →
  requests sys !! ws = Some (GameRoute, room) →
  ws ∈ running sys →
  ∃ sys',
    step sys (FrameJson ws (Ok p)) = Some sys' ∧
    server sys' = (broadcast room p (server sys)).2 ∧
    ws ∈ members (manager (server sys)) room STATE ∧
    ∀ ws', ws' ∈ members (manager (server sys)) room STATE →
      sent_to ws' (new_calls (server sys) (server sys')) = [p] ∧
      (healthy (server sys) ws' = true →
       received_by ws' (new_calls (server sys) (server sys')) = [p]).
Proof.
  intros Hreach Hreq Hrun.
  pose proof (reachable_invariant _ Hreach) as [_ Hr].
  eexists. split; [|split; [|split]].
  - simpl. rewrite Hreq, decide_True by done. reflexivity.
  - simpl. by rewrite game_session_one, broadcast_run.
  - destruct (Hr ws Hrun) as (r' & room' & Hreq' & Hmem). by simplify_eq.
  - intros ws' Hin. simpl. rewrite game_session_one. simpl.
    rewrite new_calls_logged.
    destruct (fanout_reaches IoSendJson (server sys) p
                (snapshot (active_connections (manager (server sys))) room) ws')
      as [Hsent Hrecv]; [by left | apply snapshot_NoDup
                        | by apply elem_of_snapshot |].
    split; [done|]. intros Hh. by rewrite Hrecv, Hh.
Qed.

(** The scenario of C7: sockets 1 and 2 are connected under (R1, STATE)
    and 1 sends a move; both 1 and 2 receive exactly that message. *)
Lemma state_message_echoed_to_all_witness :
  ∃ sys',
    step demo_system (FrameJson 1 (Ok move_message)) = Some sys' ∧
    received_by 1 (new_calls (server demo_system) (server sys')) = [move_message] ∧
    received_by 2 (new_calls (server demo_system) (server sys')) = [move_message].
Proof.
  destruct (state_message_echoed_to_all demo_system 1 "R1" move_message)
    as (sys' & Hstep & _ & _ & Hall).
  - apply demo_system_reachable.
  - vm_compute. reflexivity.
  - vm_compute. reflexivity.
  - exists sys'. split; [done|]. split.
    + apply (Hall 1); vm_compute; reflexivity.
    + apply (Hall 2); vm_compute; reflexivity.
Defined.
End broadcast_claims.

(** ** Session claims *)

Section session_claims.
Implicit Types (s : Server) (sys : System) (room : string) (ws : nat).

Lemma purged_clears room ws m k : ws ∉ members (purged room ws m) room k.
Proof. rewrite members_purged, decide_True by done. set_solver. Qed.

(** The game route on a close: [receive_json] raises
    [WebSocketDisconnect], after any number of frames, and the handler
    calls [disconnect(room_code, websocket)] and returns; the registry it
    leaves is the one it registered into with the socket purged from both
    sets of the room. *)
Lemma game_close_deregisters ws room frames rest s :
  was_accepted ws (wire s) = false →
  ∃ s',
    websocket_endpoint ws room
      ((Ok <$> frames) ++ Raise WebSocketDisconnect :: rest) s
    = (Ok Finished, s') ∧
    manager s' = purged room ws (registered room STATE ws (manager s)) ∧
    (∀ k, ws ∉ members (manager s') room k).
Proof.
  intros Hnew.
  destruct (game_session_frames ws room frames WebSocketDisconnect rest
              (set_manager (registered room STATE ws (manager s))
                 (logged [IoAccept ws] s))) as [calls Hrun].
  rewrite decide_True in Hrun by done.
  eexists. split; [|split].
  - rewrite websocket_endpoint_connect by done. exact Hrun.
  - done.
  - intros k. apply purged_clears.
Qed.

(** A read of the game route that raises anything else ends the handler
    with that exception and the socket still registered: the clause is
    selective. *)
Example json_error_leaves_handle_registered :
  let out := websocket_endpoint 7 "R1" [Ok move_message; Raise JSONDecodeError]
               Server_init in
  out.1 = Raise JSONDecodeError ∧ 7 ∈ members (manager out.2) "R1" STATE.
Proof. vm_compute. done. Qed.

(** The loop of [voice_endpoint] on reads none of which raises
    [WebSocketDisconnect]: it never reaches the [except] clause, so it
    never returns and never touches the registry. *)
Lemma voice_session_no_signal ws room inbox s :
  Raise WebSocketDisconnect ∉ inbox →
  ∃ out calls,
    voice_session ws room inbox s = (out, logged calls s) ∧ out ≠ Ok Finished.
Proof.
  revert s. induction inbox as [|r inbox IH]; intros s Hno.
  - exists (Ok Blocked), []. by rewrite logged_nil.
  - apply not_elem_of_cons in Hno as [Hr Hno].
    rewrite voice_session_resume, voice_session_one.
    destruct r as [msg|e].
    + destruct (IH (logged (voice_calls room msg s) s) Hno)
        as (out & calls & -> & Hout).
      exists out, (voice_calls room msg s ++ calls).
      by rewrite logged_logged.
    + rewrite decide_False by congruence.
      exists (Raise e), []. by rewrite logged_nil.
Qed.

(** [websocket.receive()] hands a close to the caller as a message and
    raises [RuntimeError] when called again; it does not raise
    [WebSocketDisconnect].  Whatever such reads deliver, the handler of
    the voice route does not reach its [except] clause: the socket is a
    VOICE member of the room when the handler is suspended and when it
    has ended. *)
Lemma voice_close_never_deregisters ws room inbox s :
  was_accepted ws (wire s) = false →
  Raise WebSocketDisconnect ∉ inbox →
  ∃ out s',
    voice_endpoint ws room inbox s = (out, s') ∧
    out ≠ Ok Finished ∧
    manager s' = registered room VOICE ws (manager s) ∧
    ws ∈ members (manager s') room VOICE.
Proof.
  intros Hnew Hno. rewrite voice_endpoint_connect by done.
  destruct (voice_session_no_signal ws room inbox
              (set_manager (registered room VOICE ws (manager s))
                 (logged [IoAccept ws] s)) Hno) as (out & calls & -> & Hout).
  exists out. eexists. split; [done|]. split; [done|]. split; [done|].
  cbn [manager set_manager logged].
  rewrite members_registered, decide_True by done. set_solver.
Qed.

(** C1 fails on the voice route.  A client of the voice route sends one
    binary frame and closes: the read returns the frame, then the close
    as a message, which the loop drops, and the next read raises
    [RuntimeError].  The handler ends on that exception, [disconnect] is
    not called and the socket stays in the VOICE set of the room.  The
    [except] clause of the handler would deregister, had the read raised
    [WebSocketDisconnect] as the clause expects, and the game route,
    where the read does raise it, deregisters on the same close. *)
Theorem voice_clean_close_leaves_handle_registered :
  (let out := voice_endpoint 8 "R1"
                [Ok binary_frame; Ok disconnect_frame; Raise RuntimeError]
                Server_init in
   out.1 = Raise RuntimeError ∧
   8 ∈ members (manager out.2) "R1" VOICE ∧
   snapshot (voice_connections (manager out.2)) "R1" = [8]) ∧
  (let out := voice_endpoint 8 "R1"
                [Ok binary_frame; Raise WebSocketDisconnect] Server_init in
   out.1 = Ok Finished ∧
   snapshot (voice_connections (manager out.2)) "R1" = []) ∧
  (let out := websocket_endpoint 8 "R1"
                [Ok move_message; Raise WebSocketDisconnect] Server_init in
   out.1 = Ok Finished ∧
   snapshot (active_connections (manager out.2)) "R1" = []).
Proof. vm_compute. done. Qed.

(** C3: in every reachable state, [disconnect(room_code, websocket)] for
    a socket and the room of its request returns normally and leaves the
    socket in no membership set, of either kind, of any room; a second
    call changes nothing; and the call returns normally for every room
    and socket whatsoever. *)
Theorem disconnect_clears_handle sys ws r room :
  reachable sys →
  requests sys !! ws = Some (r, room) →
  ∃ s',
    disconnect room ws (server sys) = (Ok (), s') ∧
    (∀ room' k, ws ∉ members (manager s') room' k) ∧
    disconnect room ws s' = (Ok (), s') ∧
    ∀ room0 ws0, (disconnect room0 ws0 (server sys)).1 = Ok ().
Proof.
  intros [Hb _]%reachable_invariant Hreq.
  eexists. split; [apply disconnect_run|]. split; [|split].
  - intros room' k. simpl. rewrite members_purged.
    case_decide as Heq; [set_solver|].
    intros Hin%Hb. congruence.
  - rewrite disconnect_run. simpl. by rewrite purged_idem.
  - intros room0 ws0. by rewrite disconnect_run.
Qed.

(** Socket 3 of the demo is a voice socket of R1: after its disconnect
    it is in neither set of R1. *)
Lemma disconnect_clears_handle_witness :
  ∃ s',
    disconnect "R1" 3 (server demo_system) = (Ok (), s') ∧
    (3 ∉ members (manager s') "R1" STATE) ∧
    (3 ∉ members (manager s') "R1" VOICE).
Proof.
  destruct (disconnect_clears_handle demo_system 3 VoiceRoute "R1")
    as (s' & Hrun & Hout & _).
  - apply demo_system_reachable.
  - vm_compute. reflexivity.
  - exists s'. split; [done|]. split; apply Hout.
Defined.

(** C8: one pass of the loop of [voice_endpoint] on a message that has a
    binary payload makes the calls of [broadcast_voice] on that payload:
    every VOICE member of the room is sent the payload, once, and
    receives it when its send goes through; no other socket is sent
    anything and nothing else is sent.  On a message without a binary
    payload the pass does nothing: no send, no exception, the state is
    as it was.  Either way the registry is untouched and the handler
    goes on to its next read. *)
Theorem voice_forwards_binary_to_members ws room msg s :
  asgi_typed msg →
  ∃ s',
    voice_session ws room [Ok msg] s = (Ok Blocked, s') ∧
    manager s' = manager s ∧
    match binary_payload msg with
    | Some b =>
        s' = (broadcast_voice room (VBytes b) s).2 ∧
        (∀ ws', ws' ∈ members (manager s) room VOICE →
           sent_to ws' (new_calls s s') = [VBytes b] ∧
           received_by ws' (new_calls s s')
           = if healthy s ws' then [VBytes b] else []) ∧
        (∀ ws', ws' ∉ members (manager s) room VOICE →
           sent_to ws' (new_calls s s') = []) ∧
        (∀ a, a ∈ new_calls s s' →
           ∃ ws' ok, a = IoSendBytes ws' (VBytes b) ok ∧
                     ws' ∈ members (manager s) room VOICE)
    | None => s' = s
    end.
Proof.
  intros Ht. rewrite voice_session_one. eexists. split; [reflexivity|].
  split; [done|].
  unfold voice_calls, binary_payload.
  destruct (msg !! "bytes") as [v|] eqn:Hb; [|apply logged_nil].
  destruct (Ht v Hb) as [-> | [b ->]]; simpl; [apply logged_nil|].
  rewrite broadcast_voice_run, new_calls_logged. simpl.
  pose proof (snapshot_NoDup (voice_connections (manager s)) room) as Hnd.
  split; [done|]. split; [|split].
  - intros ws' Hin%elem_of_snapshot.
    by rewrite sent_to_fanout_in, received_by_fanout_in by auto.
  - intros ws' Hout. apply sent_to_fanout_out; [by right|].
    by rewrite elem_of_snapshot.
  - intros a (ws' & Hin%elem_of_snapshot & ->)%elem_of_fanout.
    by exists ws', (healthy s ws').
Qed.

(** A binary frame read by the handler of socket 3 of the demo, the VOICE
    member of R1, is received by socket 3 and not sent to the game socket
    2; a text frame changes nothing. *)
Lemma voice_forwards_binary_to_members_witness :
  (∃ s',
     voice_session 3 "R1" [Ok binary_frame] (server demo_system) = (Ok Blocked, s') ∧
     received_by 3 (new_calls (server demo_system) s') = [VBytes deadbeef] ∧
     sent_to 2 (new_calls (server demo_system) s') = []) ∧
  voice_session 3 "R1" [Ok text_frame] (server demo_system)
  = (Ok Blocked, server demo_system).
Proof.
  split.
  - destruct (voice_forwards_binary_to_members 3 "R1" binary_frame
                (server demo_system)) as (s' & Hrun & _ & Hsends).
    { intros v Hv. vm_compute in Hv. right. exists deadbeef.
      injection Hv as <-. reflexivity. }
    change (binary_payload binary_frame) with (Some deadbeef) in Hsends.
    destruct Hsends as (_ & Hin & Hout & _).
    exists s'. split; [done|]. split.
    + destruct (Hin 3) as [_ Hrecv]; [vm_compute; reflexivity|].
      rewrite Hrecv. reflexivity.
    + apply Hout. vm_compute. discriminate.
  - destruct (voice_forwards_binary_to_members 3 "R1" text_frame
                (server demo_system)) as (s' & Hrun & _ & Hsame).
    { intros v Hv. vm_compute in Hv. left. injection Hv as <-. reflexivity. }
    change (binary_payload text_frame) with (@None (list Byte.byte)) in Hsame.
    by rewrite Hrun, Hsame.
Defined.
End session_claims.


(** * Further properties of the code *)

(** ** Broadcasts and the join handler *)

Section more_broadcast.
Implicit Types (s : Server) (room : string) (ws : nat) (p : value).

Lemma snapshot_empty (d : rooms) room : dict_get d room = ∅ → snapshot d room = [].
Proof. unfold snapshot. intros ->. apply elements_empty. Qed.

(** X1: a broadcast to a room whose set is empty, or that has no entry at
    all, returns normally and makes no socket call: the state is left as
    it was.  The same holds of a voice broadcast. *)
Theorem broadcast_no_members room p s :
  (members (manager s) room STATE = ∅ → broadcast room p s = (Ok (), s)) ∧
  (members (manager s) room VOICE = ∅ → broadcast_voice room p s = (Ok (), s)) ∧
  (active_connections (manager s) !! room = None → broadcast room p s = (Ok (), s)) ∧
  (voice_connections (manager s) !! room = None →
   broadcast_voice room p s = (Ok (), s)).
Proof.
  assert (∀ k, table k (manager s) !! room = None → members (manager s) room k = ∅)
    as Hnone.
  { intros k Hk. unfold members, dict_get. by rewrite Hk. }
  rewrite broadcast_run, broadcast_voice_run.
  repeat split; intros Hm;
    first [apply (Hnone STATE) in Hm | apply (Hnone VOICE) in Hm | idtac];
    unfold members in Hm; simpl in Hm;
    by rewrite (snapshot_empty _ _ Hm), logged_nil.
Qed.

(** X2: [join_room] returns [{"ok": True}] in every state, whatever the
    sockets do; it leaves the registry and the fault table as they were;
    every STATE member of the room is sent the [player_joined] message
    once and no other socket is sent anything; with no STATE member the
    state is unchanged. *)
Theorem join_room_announces player_id room s :
  ∃ s',
    join_room player_id room s = (Ok (VDict [("ok", VBool true)]), s') ∧
    manager s' = manager s ∧
    faults s' = faults s ∧
    (∀ ws, ws ∈ members (manager s) room STATE →
       sent_to ws (new_calls s s')
       = [VDict [("type", VStr "player_joined"); ("player_id", VStr player_id)]]) ∧
    (∀ ws, ws ∉ members (manager s) room STATE → sent_to ws (new_calls s s') = []) ∧
    (members (manager s) room STATE = ∅ → s' = s).
Proof.
  eexists. split.
  { unfold join_room, mbind, py_bind. rewrite broadcast_run. reflexivity. }
  split; [done|]. split; [done|]. rewrite new_calls_logged. repeat split.
  - intros ws Hin. apply sent_to_fanout_in;
      [by left | apply snapshot_NoDup | by apply elem_of_snapshot].
  - intros ws Hout. apply sent_to_fanout_out; [by left|].
    by rewrite elem_of_snapshot.
  - intros Hm. unfold members in Hm; simpl in Hm.
    by rewrite (snapshot_empty _ _ Hm), logged_nil.
Qed.

Lemma sent_to_app ws l1 l2 : sent_to ws (l1 ++ l2) = sent_to ws l1 ++ sent_to ws l2.
Proof. apply omap_app. Qed.

Lemma received_by_app ws l1 l2 :
  received_by ws (l1 ++ l2) = received_by ws l1 ++ received_by ws l2.
Proof. apply omap_app. Qed.

(** X3: two broadcasts in a row both go to the whole set: a member is
    sent the first payload and then the second, also when its sends fail
    (a failed send removes nothing and is tried again at the next
    broadcast); a member whose sends fail receives neither. *)
Theorem broadcast_twice room p1 p2 s :
  ∃ s',
    (broadcast room p1 ;; broadcast room p2) s = (Ok (), s') ∧
    ∀ ws, ws ∈ members (manager s) room STATE →
      sent_to ws (new_calls s s') = [p1; p2] ∧
      received_by ws (new_calls s s') = if healthy s ws then [p1; p2] else [].
Proof.
  eexists. split.
  { unfold mbind, py_bind. rewrite broadcast_run, broadcast_run.
    rewrite logged_logged. reflexivity. }
  intros ws Hin. rewrite new_calls_logged, sent_to_app, received_by_app.
  cbn [manager logged].
  change (fanout IoSendJson (logged ?c s) p2) with (fanout IoSendJson s p2).
  pose proof (snapshot_NoDup (active_connections (manager s)) room) as Hnd.
  apply elem_of_snapshot in Hin.
  rewrite !sent_to_fanout_in, !received_by_fanout_in by auto.
  split; [done | by destruct (healthy s ws)].
Qed.
End more_broadcast.

(** ** The registry dicts *)

Section more_registry.
Implicit Types (s : Server) (m : ConnectionManager) (room : string) (k : kind)
  (ws : nat) (o : op) (ops : list op) (d : rooms).

Lemma setdefault_add_lookup d room ws room' :
  setdefault_add d room ws !! room'
  = if decide (room = room') then Some (dict_get d room ∪ {[ws]}) else d !! room'.
Proof.
  unfold setdefault_add, dict_get.
  destruct (d !! room) as [x|] eqn:Hd; case_decide; simplify_map_eq; done.
Qed.

Lemma discarded_lookup d room ws room' :
  discarded d room ws !! room'
  = if decide (room = room') then (λ x, x ∖ {[ws]}) <$> d !! room else d !! room'.
Proof.
  unfold discarded, dict_get.
  destruct (d !! room) as [x|] eqn:Hd; simpl.
  - destruct (decide (ws ∈ x)); case_decide; simplify_map_eq; try done.
    f_equal. set_solver.
  - rewrite decide_False by set_solver. case_decide; by simplify_eq.
Qed.

Lemma table_registered room k ws m k' :
  table k' (registered room k ws m)
  = if decide (k = k') then setdefault_add (table k' m) room ws else table k' m.
Proof. by destruct k, k'. Qed.

Lemma dom_after_op o m k :
  dom (table k (apply_op o m))
  = match o with
    | Connect room k0 _ => if decide (k0 = k) then {[room]} ∪ dom (table k m)
                           else dom (table k m)
    | Disconnect _ _ => dom (table k m)
    end.
Proof.
  destruct o as [room k0 ws | room ws]; simpl.
  - rewrite table_registered. case_decide; [apply dom_setdefault_add | done].
  - rewrite table_purged. apply discarded_dom.
Qed.

Lemma connect_in_cons o ops room k :
  (∃ ws, Connect room k ws ∈ o :: ops)
  ↔ (∃ ws, o = Connect room k ws) ∨ ∃ ws, Connect room k ws ∈ ops.
Proof.
  split.
  - intros [ws [Heq | Hin]%elem_of_cons]; [left | right]; by exists ws.
  - intros [[ws ->] | [ws Hin]]; exists ws; apply elem_of_cons; auto.
Qed.

Lemma run_ops_keys ops s room k :
  fresh_connects ops s →
  ∃ s',
    run_ops ops s = (Ok (), s') ∧
    (room ∈ dom (table k (manager s'))
     ↔ room ∈ dom (table k (manager s)) ∨ ∃ ws, Connect room k ws ∈ ops).
Proof.
  revert s. induction ops as [|o ops IH]; intros s Hfresh.
  - exists s. split; [done|]. split; [by left|].
    intros [? | [ws Hin]]; [done|]. by apply elem_of_nil in Hin.
  - destruct (run_op_run o s) as [calls Ho]; [by eapply fresh_connects_head|].
    destruct (fresh_connects_cons _ _ _ _ Hfresh Ho) as [_ Hfresh'].
    destruct (IH _ Hfresh') as (s' & Hrun & Hdom).
    exists s'. split.
    + simpl. unfold mbind, py_bind. by rewrite Ho.
    + rewrite Hdom. cbn [manager set_manager]. rewrite dom_after_op.
      rewrite (connect_in_cons o ops room k).
      destruct o as [room0 k0 ws0 | room0 ws0].
      * case_decide as Hk.
        -- subst k0. rewrite elem_of_union, elem_of_singleton.
           split; [|naive_solver].
           intros [[-> | ?] | ?]; [|by left|by right; right].
           right. left. by exists ws0.
        -- split; [naive_solver|].
           intros [? | [[ws Heq] | ?]]; [by left | congruence | by right].
      * split; [naive_solver|].
        intros [? | [[ws Heq] | ?]]; [by left | congruence | by right].
Qed.

(** X4: along a sequence of connect and disconnect operations from an
    empty registry in which no socket is connected more than once, every
    operation succeeds and a room is a key of the dict of a kind exactly
    when some socket was connected to it under that kind: disconnect
    never deletes a key, so the keys of rooms that have emptied stay. *)
Theorem room_keys_never_removed ops room k :
  NoDup (connect_sockets ops) →
  ∃ s',
    run_ops ops Server_init = (Ok (), s') ∧
    (room ∈ dom (table k (manager s')) ↔ ∃ ws, Connect room k ws ∈ ops).
Proof.
  intros Hnd.
  destruct (run_ops_keys ops Server_init room k) as (s' & Hrun & Hdom); [done|].
  exists s'. split; [done|]. rewrite Hdom. split; [|by right].
  intros [Hin | ?]; [|done]. by destruct k.
Qed.

(** Socket 1 joins R1 and leaves: R1 is still a key, of an empty set. *)
Lemma room_keys_never_removed_witness :
  ∃ s',
    run_ops [Connect "R1" STATE 1; Disconnect "R1" 1] Server_init = (Ok (), s') ∧
    "R1" ∈ dom (table STATE (manager s')) ∧
    members (manager s') "R1" STATE = ∅.
Proof.
  destruct (room_keys_never_removed [Connect "R1" STATE 1; Disconnect "R1" 1]
              "R1" STATE) as (s' & Hrun & Hdom).
  - vm_compute. repeat constructor; set_solver.
  - exists s'. split; [done|]. split.
    + apply Hdom. exists 1. set_solver.
    + vm_compute in Hrun. injection Hrun as <-. by vm_compute.
Defined.

Lemma manager_eq m1 m2 :
  (∀ k, table k m1 = table k m2) → m1 = m2.
Proof.
  intros Ht. pose proof (Ht STATE). pose proof (Ht VOICE).
  destruct m1, m2; simpl in *. by subst.
Qed.

(** X5: connecting a socket that has not been accepted before to a room
    that has an entry, where the socket is in neither set of the room,
    and then disconnecting it, gives back the registry exactly as it
    was. *)
Theorem connect_disconnect_round_trip room k ws s :
  was_accepted ws (wire s) = false →
  is_Some (table k (manager s) !! room) →
  ws ∉ members (manager s) room STATE →
  ws ∉ members (manager s) room VOICE →
  ∃ s',
    run_ops [Connect room k ws; Disconnect room ws] s = (Ok (), s') ∧
    manager s' = manager s.
Proof.
  intros Hnew [x Hx] Hs Hv. eexists. split.
  { simpl. unfold mbind, py_bind. rewrite register_run, disconnect_run by done.
    reflexivity. }
  cbn [manager set_manager logged].
  assert (∀ k', table k' (purged room ws (registered room k ws (manager s)))
                = table k' (manager s)) as Ht.
  { intros k'. rewrite table_purged, table_registered. apply map_eq. intros room'.
    rewrite discarded_lookup.
    destruct (decide (room = room')) as [<-|Hroom].
    - assert (∀ y, table k' (manager s) !! room = Some y → ws ∉ y) as Hy.
      { intros y Hy. destruct k'; unfold members, dict_get in Hs, Hv;
          simpl in *; by rewrite Hy in *. }
      destruct (decide (k = k')) as [<-|Hk].
      + rewrite setdefault_add_lookup, decide_True by done. simpl.
        unfold dict_get. rewrite Hx. simpl. f_equal.
        specialize (Hy x Hx). set_solver.
      + destruct (table k' (manager s) !! room) as [y|] eqn:Hl; [|done].
        simpl. f_equal. specialize (Hy y eq_refl). set_solver.
    - destruct (decide (k = k')) as [<-|Hk]; [|done].
      by rewrite setdefault_add_lookup, decide_False. }
  by apply manager_eq.
Qed.

Lemma connect_disconnect_round_trip_witness :
  ∃ s',
    run_ops [Connect "R1" STATE 9; Disconnect "R1" 9] (server demo_system)
    = (Ok (), s') ∧
    manager s' = manager (server demo_system).
Proof.
  apply (connect_disconnect_round_trip "R1" STATE 9 (server demo_system)).
  - vm_compute. reflexivity.
  - vm_compute. eauto.
  - vm_compute. discriminate.
  - vm_compute. discriminate.
Defined.

(** X6: connecting a socket that has not been accepted before to a room
    that has no entry under the kind and then disconnecting it does not
    give the registry back: the room is left as a key holding the empty
    set. *)
Theorem connect_disconnect_leaves_empty_set room k ws s :
  was_accepted ws (wire s) = false →
  table k (manager s) !! room = None →
  ∃ s',
    run_ops [Connect room k ws; Disconnect room ws] s = (Ok (), s') ∧
    table k (manager s') = <[room := ∅]> (table k (manager s)).
Proof.
  intros Hnew Hnone. eexists. split.
  { simpl. unfold mbind, py_bind. rewrite register_run, disconnect_run by done.
    reflexivity. }
  cbn [manager set_manager logged].
  rewrite table_purged, table_registered, decide_True by done.
  apply map_eq. intros room'.
  rewrite discarded_lookup, !setdefault_add_lookup.
  destruct (decide (room = room')) as [<-|Hroom].
  - rewrite lookup_insert_eq, decide_True by done. simpl.
    unfold dict_get. rewrite Hnone. simpl. f_equal. set_solver.
  - by rewrite lookup_insert_ne.
Qed.

Lemma connect_disconnect_leaves_empty_set_witness :
  ∃ s',
    run_ops [Connect "R2" VOICE 9; Disconnect "R2" 9] (server demo_system)
    = (Ok (), s') ∧
    table VOICE (manager s')
    = <["R2" := ∅]> (table VOICE (manager (server demo_system))).
Proof.
  apply (connect_disconnect_leaves_empty_set "R2" VOICE 9 (server demo_system)).
  - vm_compute. reflexivity.
  - vm_compute. reflexivity.
Defined.

Lemma lookup_after_op o m k room :
  table k (apply_op o m) !! room
  = match o with
    | Connect room0 k0 ws =>
        if decide (k0 = k ∧ room0 = room)
        then Some (default ∅ (table k m !! room) ∪ {[ws]})
        else table k m !! room
    | Disconnect room0 ws =>
        if decide (room0 = room)
        then (λ x, x ∖ {[ws]}) <$> table k m !! room
        else table k m !! room
    end.
Proof.
  destruct o as [room0 k0 ws | room0 ws]; simpl.
  - rewrite table_registered. case_decide as Hk.
    + subst k0. rewrite setdefault_add_lookup.
      repeat case_decide; subst; try done; naive_solver.
    + rewrite decide_False by naive_solver. done.
  - rewrite table_purged, discarded_lookup. by case_decide; subst.
Qed.

Lemma fresh_connects_swap o1 o2 s :
  fresh_connects [o1; o2] s → fresh_connects [o2; o1] s.
Proof.
  intros [Hnd Hnew]. split.
  - destruct o1, o2; simpl in *; try done.
    apply NoDup_cons in Hnd as [Hout _].
    apply NoDup_cons. split; [set_solver | apply NoDup_singleton].
  - intros ws Hin. apply Hnew. destruct o1, o2; simpl in *; set_solver.
Qed.

Lemma run_two_ops o1 o2 s :
  fresh_connects [o1; o2] s →
  ∃ s', run_ops [o1; o2] s = (Ok (), s') ∧
        manager s' = apply_op o2 (apply_op o1 (manager s)).
Proof.
  intros Hfresh.
  destruct (run_op_run o1 s) as [c1 H1]; [by eapply fresh_connects_head|].
  destruct (fresh_connects_cons _ _ _ _ Hfresh H1) as [_ Hfresh'].
  destruct (run_op_run o2 _ Hfresh') as [c2 H2].
  eexists. split.
  - simpl. unfold mbind, py_bind. rewrite H1, H2. reflexivity.
  - done.
Qed.

(** X7: two registry operations that name different sockets, each connect
    being on a socket that has not been accepted before, succeed in
    either order and leave the same registry. *)
Theorem registry_ops_commute o1 o2 s :
  op_socket o1 ≠ op_socket o2 →
  fresh_connects [o1; o2] s →
  ∃ s12 s21,
    run_ops [o1; o2] s = (Ok (), s12) ∧
    run_ops [o2; o1] s = (Ok (), s21) ∧
    manager s12 = manager s21.
Proof.
  intros Hne Hfresh.
  destruct (run_two_ops o1 o2 s Hfresh) as (s12 & H12 & Hm12).
  destruct (run_two_ops o2 o1 s (fresh_connects_swap _ _ _ Hfresh))
    as (s21 & H21 & Hm21).
  exists s12, s21. split; [done|]. split; [done|].
  rewrite Hm12, Hm21. apply manager_eq. intros k.
  apply map_eq. intros room. rewrite !lookup_after_op.
  destruct o1 as [r1 k1 w1 | r1 w1], o2 as [r2 k2 w2 | r2 w2];
    simpl in Hne; repeat case_decide; simplify_eq/=;
    try done; try naive_solver;
    destruct (table k (manager s) !! room); simpl; f_equal; set_solver.
Qed.

Lemma registry_ops_commute_witness :
  ∃ s12 s21,
    run_ops [Connect "R1" STATE 9; Disconnect "R1" 1] (server demo_system)
    = (Ok (), s12) ∧
    run_ops [Disconnect "R1" 1; Connect "R1" STATE 9] (server demo_system)
    = (Ok (), s21) ∧
    manager s12 = manager s21.
Proof.
  apply (registry_ops_commute (Connect "R1" STATE 9) (Disconnect "R1" 1)).
  - simpl. lia.
  - split.
    + simpl. apply NoDup_singleton.
    + intros ws Hin. simpl in Hin. apply list_elem_of_singleton in Hin.
      subst ws. vm_compute. reflexivity.
Defined.
End more_registry.


(** ** What a handler relays *)

Section more_sessions.
Implicit Types (s : Server) (room : string) (ws : nat) (l : list nat)
  (mk : nat → value → bool → io).

Lemma sent_to_relay mk s l ps ws :
  mk = IoSendJson ∨ mk = IoSendBytes → NoDup l →
  sent_to ws (relay mk s l ps) = if decide (ws ∈ l) then ps else [].
Proof.
  intros Hmk Hnd. induction ps as [|p ps IH]; simpl.
  - by case_decide.
  - rewrite sent_to_app, IH. case_decide.
    + by rewrite sent_to_fanout_in.
    + by rewrite sent_to_fanout_out.
Qed.

Lemma received_by_relay mk s l ps ws :
  mk = IoSendJson ∨ mk = IoSendBytes → NoDup l →
  received_by ws (relay mk s l ps)
  = if decide (ws ∈ l) then (if healthy s ws then ps else []) else [].
Proof.
  intros Hmk Hnd. induction ps as [|p ps IH]; simpl.
  - case_decide; [by destruct (healthy s ws) | done].
  - rewrite received_by_app, IH. case_decide.
    + rewrite received_by_fanout_in by done. by destruct (healthy s ws).
    + by rewrite received_by_fanout_out.
Qed.

Lemma voice_calls_forwarded room msg s :
  voice_calls room msg s
  = match forwarded msg with
    | Some v => fanout IoSendBytes s v
                  (snapshot (voice_connections (manager s)) room)
    | None => []
    end.
Proof.
  unfold voice_calls, forwarded.
  destruct (msg !! "bytes") as [v|]; [|done]. by destruct (is_not_None v).
Qed.

Lemma while_True_cut {R} (turn : R → py Server ()) pre r rest s :
  (∀ s0, ∃ e, turn r s0 = (Raise e, s0)) →
  while_True turn (pre ++ r :: rest) s = while_True turn (pre ++ [r]) s.
Proof.
  intros Hr. revert s. induction pre as [|x pre IH]; intros s; simpl;
    unfold mbind, py_bind.
  - destruct (Hr s) as [e ->]. done.
  - destruct (turn x s) as [[[]|e] s1]; [apply IH | done].
Qed.

(** X10: a handler stops at the first read that raises: whatever would
    have arrived after it is never read and changes nothing, on either
    route and whatever came before. *)
Theorem reads_after_a_raise_are_ignored ws room e s :
  (∀ pre rest,
     websocket_endpoint ws room (pre ++ Raise e :: rest) s
     = websocket_endpoint ws room (pre ++ [Raise e]) s) ∧
  (∀ pre rest,
     voice_endpoint ws room (pre ++ Raise e :: rest) s
     = voice_endpoint ws room (pre ++ [Raise e]) s).
Proof.
  split; intros pre rest.
  - unfold websocket_endpoint, game_session, try_except, mbind, py_bind.
    destruct (connect room ws s) as [[[]|e0] s1]; [|done].
    by rewrite (while_True_cut (game_turn room) pre (Raise e) rest)
      by (intros s0; by exists e).
  - unfold voice_endpoint, voice_session, try_except, mbind, py_bind.
    destruct (accept ws s) as [[[]|e0] s1]; [|done].
    destruct (update_voice _ s1) as [[[]|e1] s2]; [|done].
    by rewrite (while_True_cut (voice_turn room) pre (Raise e) rest)
      by (intros s0; by exists e).
Qed.
End more_sessions.

(** ** Invariants of the running server *)

Section more_system.
Implicit Types (s : Server) (sys : System) (room : string) (k : kind) (ws : nat).

Lemma crashed_system_reachable : reachable crashed_system.
Proof. exists crash_events. by vm_compute. Qed.

(** X11: in every reachable state a socket is in at most one membership
    set: one room, one kind. *)
Theorem socket_in_one_set sys ws room k room' k' :
  reachable sys →
  ws ∈ members (manager (server sys)) room k →
  ws ∈ members (manager (server sys)) room' k' →
  room = room' ∧ k = k'.
Proof.
  intros [Hb _]%reachable_invariant H1%Hb H2%Hb.
  rewrite H1 in H2. injection H2 as Hk Hr. split; [done|].
  by destruct k, k'.
Qed.

Lemma socket_in_one_set_witness : "R1" = "R1" ∧ VOICE = VOICE.
Proof.
  apply (socket_in_one_set demo_system 3 "R1" VOICE "R1" VOICE).
  - apply demo_system_reachable.
  - vm_compute. reflexivity.
  - vm_compute. reflexivity.
Defined.

(** X12: in every reachable state, the socket of every handler that is
    suspended in a read is a member of the set of its own room and kind:
    no handler keeps reading after its socket has left the registry. *)
Theorem running_handler_is_registered sys ws :
  reachable sys →
  ws ∈ running sys →
  ∃ r room,
    requests sys !! ws = Some (r, room) ∧
    ws ∈ members (manager (server sys)) room (kind_of r).
Proof. intros [_ Hr]%reachable_invariant Hin. by apply Hr. Qed.

Lemma running_handler_is_registered_witness :
  ∃ r room,
    requests demo_system !! 3 = Some (r, room) ∧
    3 ∈ members (manager (server demo_system)) room (kind_of r).
Proof.
  apply (running_handler_is_registered demo_system 3).
  - apply demo_system_reachable.
  - vm_compute. reflexivity.
Defined.

Lemma frame_step sys ev sys' :
  step sys ev = Some sys' →
  (∃ ws r, ev = FrameJson ws r) ∨ (∃ ws r, ev = FrameAsgi ws r) →
  ∃ ws r room out,
    requests sys !! ws = Some (r, room) ∧ ws ∈ running sys ∧
    read_effect ws room (server sys) out ∧ sys' = settle ws out sys.
Proof.
  intros Hstep [(ws & r & ->) | (ws & r & ->)]; simpl in Hstep;
    destruct (requests sys !! ws) as [[[] room]|] eqn:Hreq; try done;
    case_decide; try done; simplify_eq;
    eexists ws, _, room, _; repeat split; eauto using game_session_effect,
      voice_session_effect.
Qed.

Lemma step_keeps_stale sys ev sys' ws room k :
  members_bound sys →
  step sys ev = Some sys' →
  ws ∈ members (manager (server sys)) room k →
  ws ∉ running sys →
  ws ∈ members (manager (server sys')) room k ∧ ws ∉ running sys'.
Proof.
  intros Hb Hstep Hin Hout.
  destruct ev as [ws0 r0 room0 | ws0 r0 | ws0 r0 | pl room0 | ws0 e].
  - assert (ws ≠ ws0).
    { intros ->. apply upgrade_step in Hstep as [Hfresh _].
      apply Hb in Hin. congruence. }
    apply upgrade_step in Hstep as [Hfresh [-> | ->]]; simpl.
    + split; [|set_solver].
      rewrite members_registered. case_decide; set_solver.
    + split; [done | set_solver].
  - destruct (frame_step _ _ _ Hstep) as (w & r & rm & out & Hreq & Hrun & Heff & ->);
      [left; eauto|].
    assert (ws ≠ w) by (intros ->; done).
    destruct Heff; simpl; [done | | set_solver].
    split; [|set_solver].
    rewrite members_purged. case_decide; set_solver.
  - destruct (frame_step _ _ _ Hstep) as (w & r & rm & out & Hreq & Hrun & Heff & ->);
      [right; eauto|].
    assert (ws ≠ w) by (intros ->; done).
    destruct Heff; simpl; [done | | set_solver].
    split; [|set_solver].
    rewrite members_purged. case_decide; set_solver.
  - simpl in Hstep. simplify_eq. simpl.
    unfold join_room, mbind, py_bind. by rewrite broadcast_run.
  - simpl in Hstep. by simplify_eq.
Qed.

(** X13: a socket that is in a membership set while its handler is no
    longer running (the handler ended on an exception other than
    [WebSocketDisconnect]) stays in that set through everything the server
    does afterwards: nothing but its own handler would remove it. *)
Theorem stale_socket_is_never_removed sys evs sys' ws room k :
  reachable sys →
  ws ∈ members (manager (server sys)) room k →
  ws ∉ running sys →
  steps sys evs = Some sys' →
  ws ∈ members (manager (server sys')) room k ∧ ws ∉ running sys'.
Proof.
  intros Hinv%reachable_invariant. revert sys Hinv.
  induction evs as [|ev evs IH]; intros sys Hinv Hin Hout; simpl.
  - by intros [= <-].
  - destruct (step sys ev) as [sys1|] eqn:Hstep; [|done].
    intros Hsteps.
    destruct (step_keeps_stale sys ev sys1 ws room k) as [Hin1 Hout1];
      [apply Hinv | done | done | done |].
    eapply (IH sys1); eauto using step_invariant.
Qed.

(** Socket 7 of the crashed system ended on a frame that is not JSON; a
    later socket joins the room, plays, and leaves: 7 is still a member. *)
Lemma stale_socket_is_never_removed_witness :
  ∃ sys',
    steps crashed_system later_events = Some sys' ∧
    7 ∈ members (manager (server sys')) "R1" STATE.
Proof.
  destruct (steps crashed_system later_events) as [sys'|] eqn:Hsteps;
    [|vm_compute in Hsteps; discriminate].
  exists sys'. split; [done|].
  apply (stale_socket_is_never_removed crashed_system later_events sys' 7 "R1" STATE).
  - apply crashed_system_reachable.
  - vm_compute. reflexivity.
  - vm_compute. discriminate.
  - exact Hsteps.
Defined.

(** X14: the registry changes only when a connection is upgraded or when
    the read of a handler raises [WebSocketDisconnect]: frames, reads that
    raise anything else, join requests and transport changes leave it as
    it was. *)
Theorem registry_changes_only_at_upgrade_or_disconnect sys ev sys' :
  step sys ev = Some sys' →
  manager (server sys') ≠ manager (server sys) →
  (∃ ws r room, ev = Upgrade ws r room) ∨
  (∃ ws, ev = FrameJson ws (Raise WebSocketDisconnect)) ∨
  (∃ ws, ev = FrameAsgi ws (Raise WebSocketDisconnect)).
Proof.
  intros Hstep Hne.
  destruct ev as [ws0 r0 room0 | ws0 r0 | ws0 r0 | pl room0 | ws0 e];
    simpl in Hstep.
  - left. eauto.
  - destruct (requests sys !! ws0) as [[[] room]|]; try done.
    case_decide; [|done]. simplify_eq. simpl in Hne.
    rewrite game_session_one in Hne. destruct r0 as [d|e]; [done|].
    destruct (decide (e = WebSocketDisconnect)) as [->|]; [|done].
    right. left. eauto.
  - destruct (requests sys !! ws0) as [[[] room]|]; try done.
    case_decide; [|done]. simplify_eq. simpl in Hne.
    rewrite voice_session_one in Hne. destruct r0 as [d|e]; [done|].
    destruct (decide (e = WebSocketDisconnect)) as [->|]; [|done].
    right. right. eauto.
  - simplify_eq. simpl in Hne. unfold join_room, mbind, py_bind in Hne.
    by rewrite broadcast_run in Hne.
  - by simplify_eq.
Qed.

Lemma registry_changes_only_at_upgrade_or_disconnect_witness :
  ∃ sys',
    step demo_system (FrameJson 1 (Raise WebSocketDisconnect)) = Some sys' ∧
    ((∃ ws r room, FrameJson 1 (Raise WebSocketDisconnect) = Upgrade ws r room) ∨
     (∃ ws, FrameJson 1 (Raise WebSocketDisconnect)
            = FrameJson ws (Raise WebSocketDisconnect)) ∨
     (∃ ws, FrameJson 1 (Raise WebSocketDisconnect)
            = FrameAsgi ws (Raise WebSocketDisconnect))).
Proof.
  destruct (step demo_system (FrameJson 1 (Raise WebSocketDisconnect)))
    as [sys'|] eqn:Hstep; [|vm_compute in Hstep; discriminate].
  exists sys'. split; [done|].
  apply (registry_changes_only_at_upgrade_or_disconnect demo_system _ sys' Hstep).
  vm_compute in Hstep. injection Hstep as <-. vm_compute. discriminate.
Defined.

(** X15: a read that raises touches only its own handler: no socket call
    is made, the fault table is unchanged, the handler leaves the set of
    running handlers, and every other socket keeps the memberships it
    had. *)
Theorem raising_read_is_isolated sys ws e sys' :
  step sys (FrameJson ws (Raise e)) = Some sys' ∨
  step sys (FrameAsgi ws (Raise e)) = Some sys' →
  wire (server sys') = wire (server sys) ∧
  faults (server sys') = faults (server sys) ∧
  running sys' = running sys ∖ {[ws]} ∧
  ∀ ws' room k, ws' ≠ ws →
    (ws' ∈ members (manager (server sys')) room k
     ↔ ws' ∈ members (manager (server sys)) room k).
Proof.
  assert (∀ room0 out,
            out = (if decide (e = WebSocketDisconnect)
                   then (Ok Finished,
                         set_manager (purged room0 ws (manager (server sys)))
                           (server sys))
                   else (Raise e, server sys)) →
            wire out.2 = wire (server sys) ∧
            faults out.2 = faults (server sys) ∧
            running (settle ws out sys) = running sys ∖ {[ws]} ∧
            ∀ ws' room k, ws' ≠ ws →
              (ws' ∈ members (manager out.2) room k
               ↔ ws' ∈ members (manager (server sys)) room k)) as Hout.
  { intros room0 out ->. case_decide; simpl; repeat split; try done;
      rewrite members_purged in *; case_decide; set_solver. }
  intros [Hstep | Hstep]; simpl in Hstep;
    destruct (requests sys !! ws) as [[[] room0]|]; try done;
    case_decide; try done; simplify_eq;
    first [rewrite game_session_one | rewrite voice_session_one];
    by apply (Hout room0).
Qed.

Lemma raising_read_is_isolated_witness :
  ∃ sys',
    step demo_system (FrameJson 1 (Raise WebSocketDisconnect)) = Some sys' ∧
    (2 ∈ members (manager (server sys')) "R1" STATE
     ↔ 2 ∈ members (manager (server demo_system)) "R1" STATE).
Proof.
  destruct (step demo_system (FrameJson 1 (Raise WebSocketDisconnect)))
    as [sys'|] eqn:Hstep; [|vm_compute in Hstep; discriminate].
  exists sys'. split; [done|].
  apply (raising_read_is_isolated demo_system 1 WebSocketDisconnect sys'
           (or_introl Hstep)).
  lia.
Defined.

(** X16: when the handler of a voice socket reads a message whose [bytes]
    entry is not [None], the value is sent to the whole VOICE set of its
    room, and the reading socket is in that set: a voice client is sent
    its own frame back, once. *)
Theorem voice_frame_echoed_to_sender sys ws room msg v :
  reachable sys →
  requests sys !! ws = Some (VoiceRoute, room) →
  ws ∈ running sys →
  forwarded msg = Some v →
  ∃ sys',
    step sys (FrameAsgi ws (Ok msg)) = Some sys' ∧
    server sys' = (broadcast_voice room v (server sys)).2 ∧
    ws ∈ members (manager (server sys)) room VOICE ∧
    sent_to ws (new_calls (server sys) (server sys')) = [v] ∧
    (healthy (server sys) ws = true →
     received_by ws (new_calls (server sys) (server sys')) = [v]).
Proof.
  intros Hreach Hreq Hrun Hfw.
  pose proof (reachable_invariant _ Hreach) as [_ Hr].
  assert (ws ∈ members (manager (server sys)) room VOICE) as Hmem.
  { destruct (Hr ws Hrun) as (r' & room' & Hreq' & Hmem). by simplify_eq. }
  eexists. split; [|split; [|split; [done|]]].
  - simpl. rewrite Hreq, decide_True by done. reflexivity.
  - simpl. rewrite voice_session_one, voice_calls_forwarded, Hfw.
    by rewrite broadcast_voice_run.
  - simpl. rewrite voice_session_one, voice_calls_forwarded, Hfw. simpl.
    rewrite new_calls_logged.
    pose proof (snapshot_NoDup (voice_connections (manager (server sys))) room).
    apply elem_of_snapshot in Hmem.
    rewrite sent_to_fanout_in, received_by_fanout_in by auto.
    split; [done|]. by intros ->.
Qed.

Lemma voice_frame_echoed_to_sender_witness :
  ∃ sys',
    step demo_system (FrameAsgi 3 (Ok binary_frame)) = Some sys' ∧
    received_by 3 (new_calls (server demo_system) (server sys')) = [VBytes deadbeef].
Proof.
  destruct (voice_frame_echoed_to_sender demo_system 3 "R1" binary_frame
              (VBytes deadbeef))
    as (sys' & Hstep & _ & _ & _ & Hrecv).
  - apply demo_system_reachable.
  - vm_compute. reflexivity.
  - vm_compute. reflexivity.
  - vm_compute. reflexivity.
  - exists sys'. split; [done|]. apply Hrecv. vm_compute. reflexivity.
Defined.
Lemma game_frames_steps ws room frames s c rq rn :
  rq !! ws = Some (GameRoute, room) → ws ∈ rn →
  steps {| server := logged c s; requests := rq; running := rn |}
    ((λ p, FrameJson ws (Ok p)) <$> frames)
  = Some {| server := logged (c ++ relay IoSendJson s
                                   (snapshot (active_connections (manager s)) room)
                                   frames) s;
            requests := rq; running := rn |}.
Proof.
  intros Hreq Hrun. revert c.
  induction frames as [|p frames IH]; intros c; rewrite ?fmap_nil, ?fmap_cons.
  - simpl. by rewrite app_nil_r.
  - cbn [steps step requests running server].
    rewrite Hreq, decide_True by done. rewrite game_session_one.
    unfold settle. cbn [fst snd requests running].
    rewrite logged_logged.
    change (manager (logged c s)) with (manager s).
    change (fanout IoSendJson (logged c s)) with (fanout IoSendJson s).
    rewrite IH. simpl. by rewrite <- app_assoc.
Qed.

Lemma voice_frames_steps ws room frames s c rq rn :
  rq !! ws = Some (VoiceRoute, room) → ws ∈ rn →
  steps {| server := logged c s; requests := rq; running := rn |}
    ((λ msg, FrameAsgi ws (Ok msg)) <$> frames)
  = Some {| server := logged (c ++ relay IoSendBytes s
                                   (snapshot (voice_connections (manager s)) room)
                                   (omap forwarded frames)) s;
            requests := rq; running := rn |}.
Proof.
  intros Hreq Hrun. revert c.
  induction frames as [|msg frames IH]; intros c; rewrite ?fmap_nil, ?fmap_cons.
  - simpl. by rewrite app_nil_r.
  - cbn [steps step requests running server].
    rewrite Hreq, decide_True by done. rewrite voice_session_one.
    unfold settle. cbn [fst snd requests running].
    rewrite logged_logged, voice_calls_forwarded.
    change (manager (logged c s)) with (manager s).
    rewrite IH. do 3 f_equal. rewrite <- app_assoc. f_equal. simpl.
    destruct (forwarded msg); [|done].
    by change (fanout IoSendBytes (logged c s)) with (fanout IoSendBytes s).
Qed.

(** X8: when the next events of the server are reads of one running game
    handler that return the messages [frames], in that order, with no
    event of another handler in between, the handler is still suspended
    in a read, the registry is as it was, and every STATE member of the
    room, the reading socket among them, has been sent exactly those
    messages, unchanged and in that order; a member whose sends go
    through has received them all, in order. *)
Theorem game_frames_relayed_in_order sys ws room frames :
  reachable sys →
  requests sys !! ws = Some (GameRoute, room) →
  ws ∈ running sys →
  ∃ sys',
    steps sys ((λ p, FrameJson ws (Ok p)) <$> frames) = Some sys' ∧
    manager (server sys') = manager (server sys) ∧
    running sys' = running sys ∧
    ws ∈ members (manager (server sys)) room STATE ∧
    ∀ ws', ws' ∈ members (manager (server sys)) room STATE →
      sent_to ws' (new_calls (server sys) (server sys')) = frames ∧
      (healthy (server sys) ws' = true →
       received_by ws' (new_calls (server sys) (server sys')) = frames).
Proof.
  intros Hreach Hreq Hrun.
  pose proof (reachable_invariant _ Hreach) as [_ Hr].
  pose proof (game_frames_steps ws room frames (server sys) [] _ _ Hreq Hrun)
    as Hsteps.
  rewrite logged_nil in Hsteps. destruct sys as [s rq rn].
  eexists. split; [exact Hsteps|]. split; [done|]. split; [done|]. split.
  - destruct (Hr ws Hrun) as (r' & room' & Hreq' & Hmem). simpl in *.
    by simplify_eq.
  - intros ws' Hin%elem_of_snapshot. cbn [server] in *.
    rewrite new_calls_logged, app_nil_l.
    rewrite sent_to_relay, received_by_relay by auto using snapshot_NoDup.
    rewrite !decide_True by done.
    split; [done|]. by intros ->.
Qed.

(** Socket 1 of the demo plays two moves in a row: socket 2, in the same
    room, receives both, in order. *)
Lemma game_frames_relayed_in_order_witness :
  ∃ sys',
    steps demo_system [FrameJson 1 (Ok move_message); FrameJson 1 (Ok (VInt 7))]
    = Some sys' ∧
    received_by 2 (new_calls (server demo_system) (server sys'))
    = [move_message; VInt 7].
Proof.
  destruct (game_frames_relayed_in_order demo_system 1 "R1" [move_message; VInt 7])
    as (sys' & Hsteps & _ & _ & _ & Hall).
  - apply demo_system_reachable.
  - vm_compute. reflexivity.
  - vm_compute. reflexivity.
  - exists sys'. split; [done|].
    apply (Hall 2); vm_compute; reflexivity.
Defined.

(** X9: when the next events of the server are reads of one running voice
    handler that return the messages [frames], with no event of another
    handler in between, the handler is still suspended in a read, the
    registry is as it was, and every VOICE member of the room, the
    reading socket among them, has been sent the values under [bytes] of
    the messages that have one other than [None], in order, and nothing
    for the other messages. *)
Theorem voice_frames_relayed_in_order sys ws room frames :
  reachable sys →
  requests sys !! ws = Some (VoiceRoute, room) →
  ws ∈ running sys →
  ∃ sys',
    steps sys ((λ msg, FrameAsgi ws (Ok msg)) <$> frames) = Some sys' ∧
    manager (server sys') = manager (server sys) ∧
    running sys' = running sys ∧
    ws ∈ members (manager (server sys)) room VOICE ∧
    ∀ ws', ws' ∈ members (manager (server sys)) room VOICE →
      sent_to ws' (new_calls (server sys) (server sys')) = omap forwarded frames ∧
      (healthy (server sys) ws' = true →
       received_by ws' (new_calls (server sys) (server sys'))
       = omap forwarded frames).
Proof.
  intros Hreach Hreq Hrun.
  pose proof (reachable_invariant _ Hreach) as [_ Hr].
  pose proof (voice_frames_steps ws room frames (server sys) [] _ _ Hreq Hrun)
    as Hsteps.
  rewrite logged_nil in Hsteps. destruct sys as [s rq rn].
  eexists. split; [exact Hsteps|]. split; [done|]. split; [done|]. split.
  - destruct (Hr ws Hrun) as (r' & room' & Hreq' & Hmem). simpl in *.
    by simplify_eq.
  - intros ws' Hin%elem_of_snapshot. cbn [server] in *.
    rewrite new_calls_logged, app_nil_l.
    rewrite sent_to_relay, received_by_relay by auto using snapshot_NoDup.
    rewrite !decide_True by done.
    split; [done|]. by intros ->.
Qed.

(** Socket 3 of the demo sends a binary frame, a text frame and the binary
    frame again: it receives the payload twice and nothing for the text
    frame. *)
Lemma voice_frames_relayed_in_order_witness :
  ∃ sys',
    steps demo_system
      [FrameAsgi 3 (Ok binary_frame); FrameAsgi 3 (Ok text_frame);
       FrameAsgi 3 (Ok binary_frame)] = Some sys' ∧
    received_by 3 (new_calls (server demo_system) (server sys'))
    = [VBytes deadbeef; VBytes deadbeef].
Proof.
  destruct (voice_frames_relayed_in_order demo_system 3 "R1"
              [binary_frame; text_frame; binary_frame])
    as (sys' & Hsteps & _ & _ & _ & Hall).
  - apply demo_system_reachable.
  - vm_compute. reflexivity.
  - vm_compute. reflexivity.
  - exists sys'. split; [done|].
    apply (Hall 3); vm_compute; reflexivity.
Defined.
End more_system.
